(** * StegoProApp: operation lifecycle, binary codec, usage gate and stats ledger

    A shallow embedding of the [StegoProApp] class of [src/pres.js]:
    the base64 transport codec ([fileToBase64], [base64ToBlob]), the filename
    sanitiser, the tracked object URLs, the anonymous usage gate, the stats
    ledger with its achievements and the hide / extract operation life cycle
    with its [AbortController]; beside it the [PresentationController] of
    the same file, and the parts of the older variant of the class in
    [src/app.js] where the two differ.

    Conventions.
    - A JavaScript string is the list of its UTF-16 code units ([jsstring]).
    - File contents are [list byte].
    - JavaScript numbers that the program only uses as counters and sizes are
      integers ([Z]); they stay far below 2^53 in every run of the program.
    - A JavaScript [Set] of object URLs is a [gset] of URL tokens.
    - Methods that mutate [this] are functions on the record [App]; code that
      can throw runs in the small state-and-exception monad [M], where a throw
      keeps the mutations made so far, as in JavaScript.
    - An [await] on the network splits a method in two: the part that runs
      up to the suspension and the continuation that runs when the exchange
      settles. *)

From Stdlib Require Import ZArith NArith Lia ZifyNat Bool Ascii String.
From Stdlib Require Import Strings.Byte.
From stdpp Require Import base list gmap sets strings pretty.

#[local] Open Scope N_scope.
#[local] Open Scope list_scope.

(** Linear arithmetic with division and remainder by constants. *)
Ltac divlia := zify; Z.to_euclidean_division_equations; lia.

(* ===================================================================== *)
(** ** JavaScript strings and values                                      *)
(* ===================================================================== *)

(** A string is a sequence of 16-bit code units. *)
Definition jsstring := list N.

(** An ASCII literal as a JavaScript string. *)
Definition js (s : string) : jsstring :=
  map N_of_ascii (list_ascii_of_string s).

(** The few JavaScript values that reach the codec. *)
Inductive jsval :=
| JUndefined
| JNull
| JStr (s : jsstring).

(** [ToString] of the language, on these values. *)
Definition ToString (v : jsval) : jsstring :=
  match v with
  | JUndefined => js "undefined"
  | JNull => js "null"
  | JStr s => s
  end.

(** An [Error] object: its [name] and its [message]. *)
Record JsError := mkError { err_name : string; err_message : string }.

(** [new Error(message)]. *)
Definition new_Error (message : string) : JsError := mkError "Error" message.

(** [s.split(sep)] for a one-unit separator. *)
Fixpoint split_on (sep : N) (s : jsstring) : list jsstring :=
  match s with
  | [] => [[]]
  | c :: rest =>
      if N.eqb c sep then [] :: split_on sep rest
      else match split_on sep rest with
           | [] => [[c]]
           | piece :: pieces => (c :: piece) :: pieces
           end
  end.

(** [array[i]], [undefined] out of range. *)
Definition array_get (a : list jsstring) (i : nat) : jsval :=
  match nth_error a i with
  | Some s => JStr s
  | None => JUndefined
  end.

(* ===================================================================== *)
(** ** Files and blobs                                                    *)
(* ===================================================================== *)

Record File := mkFile {
  file_name : jsstring;
  file_type : jsstring;      (* the MIME type the browser assigned *)
  file_bytes : list byte
}.

(** [file.size]. *)
Definition file_size (f : File) : Z := Z.of_nat (length (file_bytes f)).

Record Blob := mkBlob {
  blob_bytes : list byte;
  blob_type : string
}.

(* ===================================================================== *)
(** ** Browser primitives of the codec                                    *)
(* ===================================================================== *)

(** The base64 alphabet of RFC 4648, section 4: the character of a 6-bit
    group. *)
Definition b64_char (v : N) : N :=
  if v <? 26 then 65 + v                (* A-Z *)
  else if v <? 52 then 97 + (v - 26)    (* a-z *)
  else if v <? 62 then 48 + (v - 52)    (* 0-9 *)
  else if v =? 62 then 43               (* + *)
  else 47.                              (* / *)

(** The 6-bit group of a character, when it is in the alphabet. *)
Definition b64_value (c : N) : option N :=
  if (65 <=? c) && (c <=? 90) then Some (c - 65)
  else if (97 <=? c) && (c <=? 122) then Some (c - 97 + 26)
  else if (48 <=? c) && (c <=? 57) then Some (c - 48 + 52)
  else if c =? 43 then Some 62
  else if c =? 47 then Some 63
  else None.

Definition pad_char : N := 61.   (* = *)
Definition comma : N := 44.      (* , *)

(** The 6-bit groups of a byte sequence: three bytes give four groups, a
    final single byte two groups, a final pair three groups. *)
Fixpoint sextets (bs : list byte) : list N :=
  match bs with
  | [] => []
  | b1 :: bs1 =>
      let x := Byte.to_N b1 in
      match bs1 with
      | [] => [x / 4; (x mod 4) * 16]
      | b2 :: bs2 =>
          let y := Byte.to_N b2 in
          match bs2 with
          | [] => [x / 4; (x mod 4) * 16 + y / 16; (y mod 16) * 4]
          | b3 :: rest =>
              let z := Byte.to_N b3 in
              x / 4 :: (x mod 4) * 16 + y / 16
                :: (y mod 16) * 4 + z / 64 :: z mod 64 :: sextets rest
          end
      end
  end.

(** Padding to a multiple of four characters. *)
Definition padding (len : nat) : jsstring :=
  match (len mod 3)%nat with
  | 1%nat => [pad_char; pad_char]
  | 2%nat => [pad_char]
  | _ => []
  end.

(** Base64 text of a byte sequence, as [FileReader.readAsDataURL] emits it. *)
Definition base64_encode (bs : list byte) : jsstring :=
  map b64_char (sextets bs) ++ padding (length bs).

(** [reader.result] after [readAsDataURL(file)] loaded:
    [data:<type>;base64,<text>]; a file without type is served as
    [application/octet-stream]. For the empty file the hosts differ (some
    give [data:] alone, where [split(',')[1]] is [undefined]); the
    properties below are about files that are not empty, the only ones
    [processFile] lets through. *)
Definition readAsDataURL (f : File) : jsstring :=
  js "data:"
  ++ (match file_type f with [] => js "application/octet-stream" | t => t end)
  ++ js ";base64," ++ base64_encode (file_bytes f).

(** ASCII whitespace, which [atob] skips. *)
Definition ascii_whitespace (c : N) : bool :=
  (c =? 9) || (c =? 10) || (c =? 12) || (c =? 13) || (c =? 32).

(** Removal of one or two trailing [=], done when the length is a multiple
    of four. *)
Definition strip_padding (s : jsstring) : jsstring :=
  if (length s mod 4 =? 0)%nat then
    match rev s with
    | c1 :: c2 :: r =>
        if c1 =? pad_char then
          if c2 =? pad_char then rev r else rev (c2 :: r)
        else s
    | _ => s
    end
  else s.

(** All characters to 6-bit groups; [None] when one is not in the
    alphabet. *)
Fixpoint b64_values (s : jsstring) : option (list N) :=
  match s with
  | [] => Some []
  | c :: rest =>
      match b64_value c, b64_values rest with
      | Some v, Some vs => Some (v :: vs)
      | _, _ => None
      end
  end.

(** Four groups give three bytes; three trailing groups two bytes, two
    trailing groups one byte, the spare bits being dropped. *)
Fixpoint octets (vs : list N) : list N :=
  match vs with
  | [] => []
  | a :: vs1 =>
      match vs1 with
      | [] => []
      | b :: vs2 =>
          match vs2 with
          | [] => [a * 4 + b / 16]
          | c :: vs3 =>
              match vs3 with
              | [] => [a * 4 + b / 16; (b mod 16) * 16 + c / 4]
              | d :: rest =>
                  a * 4 + b / 16 :: (b mod 16) * 16 + c / 4
                    :: (c mod 4) * 64 + d :: octets rest
              end
          end
      end
  end.

(** [atob(data)] (the forgiving-base64 decode of the HTML Standard): the
    binary string, one code unit per byte, or an [InvalidCharacterError].
    The name of the exception is the standard's; the text of its message
    is the host's own, the one written here is one of them, and no
    property below rests on it. *)
Definition atob (data : jsval) : JsError + jsstring :=
  let d :=
    strip_padding (List.filter (fun c => negb (ascii_whitespace c)) (ToString data)) in
  if (length d mod 4 =? 1)%nat then
    inl (mkError "InvalidCharacterError" "The string to be decoded is not correctly encoded.")
  else
    match b64_values d with
    | Some vs => inr (octets vs)
    | None =>
        inl (mkError "InvalidCharacterError" "The string to be decoded is not correctly encoded.")
    end.

(** Storing a number into a [Uint8Array] element keeps it modulo 256. *)
Definition Uint8 (n : N) : byte :=
  match Byte.of_N (n mod 256) with
  | Some b => b
  | None => x00
  end.

(* ===================================================================== *)
(** ** BinaryCodec: [fileToBase64] and [base64ToBlob]                      *)
(* ===================================================================== *)

(** What the [FileReader] reports. *)
Inductive reader_event :=
| onload (result : jsstring)
| onerror.

(** The two handlers installed by [fileToBase64]: [onload] resolves with
    [reader.result.split(',')[1]], [onerror] rejects. *)
Definition fileToBase64_settle (ev : reader_event) : JsError + jsval :=
  match ev with
  | onload result => inr (array_get (split_on comma result) 1)
  | onerror => inl (new_Error "Не удалось прочитать файл")
  end.

(** [fileToBase64(file)] for a file the reader can read. *)
Definition fileToBase64 (file : File) : JsError + jsval :=
  fileToBase64_settle (onload (readAsDataURL file)).

(** [fileToBase64Chunked(file)]: below 1 MiB it delegates to
    [fileToBase64]; at or above, its own reader has the same [onload]. *)
Definition fileToBase64Chunked (file : File) : JsError + jsval :=
  let chunkSize := (1024 * 1024)%Z in
  if (file_size file <? chunkSize)%Z then fileToBase64 file
  else inr (array_get (split_on comma (readAsDataURL file)) 1).

(** The slicing loop of [base64ToBlob]:
    [for (offset = 0; offset < byteCharacters.length; offset += chunkSize)].
    Each round pushes the bytes of
    [byteCharacters.slice(offset, offset + chunkSize)]; [fuel] bounds the
    number of rounds. *)
Fixpoint slice_loop (fuel : nat) (chunkSize offset : nat) (byteCharacters : jsstring)
  : list (list byte) :=
  match fuel with
  | O => []
  | S fuel' =>
      if (offset <? length byteCharacters)%nat then
        let slice := take chunkSize (drop offset byteCharacters) in
        let byteNumbers := map Uint8 slice in
        byteNumbers :: slice_loop fuel' chunkSize (offset + chunkSize) byteCharacters
      else []
  end.

(** [base64ToBlob(base64, mimeType)]; the [catch] rewraps any error. One
    round per character is always enough fuel for the loop. *)
Definition base64ToBlob (base64 : jsval) (mimeType : string) : JsError + Blob :=
  match atob base64 with
  | inr byteCharacters =>
      let chunkSize := N.to_nat 8192 in
      let byteArrays := slice_loop (length byteCharacters) chunkSize 0 byteCharacters in
      inr (mkBlob (concat byteArrays) mimeType)
  | inl e =>
      inl (new_Error ("Ошибка декодирования данных: " ++ err_message e))
  end.

(* ===================================================================== *)
(** ** Filename sanitiser                                                 *)
(* ===================================================================== *)

(** The character class of the first [replace]: the characters
    < > : | ? * and the double quote, and the code units 0x00 to 0x1F. *)
Definition dangerous_char (c : N) : bool :=
  (c =? 60) || (c =? 62) || (c =? 58) || (c =? 34) || (c =? 124)
  || (c =? 63) || (c =? 42) || (c <=? 31).

(** [.replace(/^\.+/, '')]: the leading dots go. *)
Fixpoint strip_leading_dots (s : jsstring) : jsstring :=
  match s with
  | c :: rest => if c =? 46 then strip_leading_dots rest else s
  | [] => []
  end.

(** White space and line terminators of the language, which [trim]
    removes at both ends. *)
Definition js_whitespace (c : N) : bool :=
  ((9 <=? c) && (c <=? 13)) || (c =? 32) || (c =? 160) || (c =? 5760)
  || ((8192 <=? c) && (c <=? 8202)) || (c =? 8232) || (c =? 8233)
  || (c =? 8239) || (c =? 8287) || (c =? 12288) || (c =? 65279).

Fixpoint trim_start (s : jsstring) : jsstring :=
  match s with
  | c :: rest => if js_whitespace c then trim_start rest else s
  | [] => []
  end.

Definition trim (s : jsstring) : jsstring :=
  rev (trim_start (rev (trim_start s))).

(** [sanitizeFilename(filename)]; the empty string is falsy and comes back
    as [''] at once. *)
Definition sanitizeFilename (filename : jsstring) : jsstring :=
  match filename with
  | [] => []
  | _ =>
      trim
        (take 255
           (strip_leading_dots
              (List.filter (fun c => negb (dangerous_char c)) filename)))
  end.

(** The two path separators. *)
Definition path_separator (c : N) : bool := (c =? 47) || (c =? 92).

(** C0 control characters and DEL. *)
Definition control_char (c : N) : bool := (c <=? 31) || (c =? 127).

(** [s.toLowerCase()] on the ASCII letters (what decides membership in the
    ASCII allow-list of extensions). On a string of ASCII code units this
    is [String.prototype.toLowerCase]; the host also lowers the cased
    letters beyond ASCII, which are left as they are here, so what is said
    of the lowered text below is said of ASCII strings. *)
Definition toLowerCase (s : jsstring) : jsstring :=
  map (fun c => if (65 <=? c) && (c <=? 90) then c + 32 else c) s.

(** ['.' + file.name.split('.').pop().toLowerCase()]. *)
Definition dot_extension (name : jsstring) : jsstring :=
  46 :: toLowerCase (List.last (split_on 46 name) []).

Definition jsstring_eqb (a b : jsstring) : bool :=
  bool_decide (a = b).

(** [validTypes.container] and [validTypes.extract]. *)
Definition carrier_extensions : list jsstring :=
  [js ".png"; js ".bmp"; js ".tiff"; js ".tif"; js ".wav"].

(* ===================================================================== *)
(** ** Data model of the application                                      *)
(* ===================================================================== *)

Record Stats := mkStats {
  filesProcessed : Z;
  dataHidden : Z;
  successfulOperations : Z
}.

Record Achievement := mkAchievement {
  ach_id : string;
  ach_name : string;
  ach_description : string
}.

Record Toast := mkToast {
  toast_title : string;
  toast_message : string;
  toast_type : string
}.

Inductive OpKind := Hide | Extract.

(** The three slots a file can be put in. *)
Inductive FileSlot := SlotContainer | SlotData | SlotExtract.

(** [localStorage], the three keys of the program. *)
Record Storage := mkStorage {
  stegopro_anon_ops : option Z;
  stegopro_stats : option Stats;
  stegopro_achievements : option (list Achievement)
}.

(** A request the program handed to [fetch]. *)
Inductive Request :=
| PostHide (signal : nat) (container secret : jsval) (method : option string)
           (password : string) (original_filename : jsstring)
| PostExtract (signal : nat) (stego : jsval) (password : string)
| PostSaveStats (st : Stats) (achs : list Achievement)
| PostLogout
| GetUser.

(** How far a suspended [hideData] / [extractData] call has come. *)
Inductive Stage :=
| Reading      (* awaiting the FileReaders *)
| Fetching.    (* awaiting [fetch] and [response.json()] *)

(** The files [hideData] and [extractData] were called with. *)
Inductive OpArgs :=
| HideArgs (containerFile dataFile : File)
| ExtractArgs (stegoFile : File).

Definition kind_of (a : OpArgs) : OpKind :=
  match a with
  | HideArgs _ _ => Hide
  | ExtractArgs _ => Extract
  end.

(** A suspended operation: the arguments it captured and its signal. *)
Record Pending := mkPending {
  p_signal : nat;
  p_args : OpArgs;
  p_password : string;
  p_stage : Stage
}.

(** The JSON body of a service response, the fields the program reads. *)
Record ServiceResult := mkResult {
  res_success : bool;
  res_error : string;
  res_data : jsval;                 (* stego_data / extracted_data *)
  res_file_extension : jsstring;    (* [] when absent *)
  res_original_filename : jsstring  (* [] when absent *)
}.

(** How a network exchange can settle. *)
Inductive FetchOutcome :=
| NetworkFailure                    (* fetch rejects with a TypeError *)
| HttpResponse (ok : bool) (status : N) (body : option ServiceResult).
                                    (* [None]: the body is not JSON *)

(** What [GET /api/user] answers. *)
Record UserInfo := mkUser {
  logged_in : bool;
  has_picture : bool;
  user_stats : option (Stats * option (list Achievement))
}.

(** The instance of [StegoProApp] with the part of the browser it acts on. *)
Record App := mkApp {
  (* fields of [this] *)
  currentMethod : option string;
  containerFile : option File;
  dataFile : option File;
  extractFile : option File;
  stats : Stats;
  achievements : list Achievement;
  currentOperationController : option nat;
  anonOperationCount : Z;
  objectURLs : gset nat;
  (* the browser *)
  navAvatarVisible : bool;      (* #navAvatar exists and is not hidden *)
  nextController : nat;         (* identities of AbortControllers *)
  aborted : gset nat;           (* controllers whose abort() ran *)
  inflight : list Pending;      (* suspended operations *)
  requests : list Request;      (* everything handed to fetch, latest first *)
  blobStore : gmap nat Blob;    (* the blob URL store *)
  nextURL : nat;
  resultsContent : list nat;    (* hrefs of the download links shown *)
  toasts : list Toast;          (* toasts shown, latest first *)
  loginPrompt : bool;           (* the login prompt modal is in the page *)
  localStorage : Storage
}.

(** Assignment to one field; the other fields keep their values. *)
Definition set_currentMethod (v : option string) (s : App) : App :=
  mkApp v (containerFile s) (dataFile s) (extractFile s) (stats s)
    (achievements s) (currentOperationController s) (anonOperationCount s)
    (objectURLs s) (navAvatarVisible s) (nextController s) (aborted s)
    (inflight s) (requests s) (blobStore s) (nextURL s) (resultsContent s)
    (toasts s) (loginPrompt s) (localStorage s).
Definition set_containerFile (v : option File) (s : App) : App :=
  mkApp (currentMethod s) v (dataFile s) (extractFile s) (stats s)
    (achievements s) (currentOperationController s) (anonOperationCount s)
    (objectURLs s) (navAvatarVisible s) (nextController s) (aborted s)
    (inflight s) (requests s) (blobStore s) (nextURL s) (resultsContent s)
    (toasts s) (loginPrompt s) (localStorage s).
Definition set_dataFile (v : option File) (s : App) : App :=
  mkApp (currentMethod s) (containerFile s) v (extractFile s) (stats s)
    (achievements s) (currentOperationController s) (anonOperationCount s)
    (objectURLs s) (navAvatarVisible s) (nextController s) (aborted s)
    (inflight s) (requests s) (blobStore s) (nextURL s) (resultsContent s)
    (toasts s) (loginPrompt s) (localStorage s).
Definition set_extractFile (v : option File) (s : App) : App :=
  mkApp (currentMethod s) (containerFile s) (dataFile s) v (stats s)
    (achievements s) (currentOperationController s) (anonOperationCount s)
    (objectURLs s) (navAvatarVisible s) (nextController s) (aborted s)
    (inflight s) (requests s) (blobStore s) (nextURL s) (resultsContent s)
    (toasts s) (loginPrompt s) (localStorage s).
Definition set_stats (v : Stats) (s : App) : App :=
  mkApp (currentMethod s) (containerFile s) (dataFile s) (extractFile s) v
    (achievements s) (currentOperationController s) (anonOperationCount s)
    (objectURLs s) (navAvatarVisible s) (nextController s) (aborted s)
    (inflight s) (requests s) (blobStore s) (nextURL s) (resultsContent s)
    (toasts s) (loginPrompt s) (localStorage s).
Definition set_achievements (v : list Achievement) (s : App) : App :=
  mkApp (currentMethod s) (containerFile s) (dataFile s) (extractFile s)
    (stats s) v (currentOperationController s) (anonOperationCount s)
    (objectURLs s) (navAvatarVisible s) (nextController s) (aborted s)
    (inflight s) (requests s) (blobStore s) (nextURL s) (resultsContent s)
    (toasts s) (loginPrompt s) (localStorage s).
Definition set_currentOperationController (v : option nat) (s : App) : App :=
  mkApp (currentMethod s) (containerFile s) (dataFile s) (extractFile s)
    (stats s) (achievements s) v (anonOperationCount s) (objectURLs s)
    (navAvatarVisible s) (nextController s) (aborted s) (inflight s)
    (requests s) (blobStore s) (nextURL s) (resultsContent s) (toasts s)
    (loginPrompt s) (localStorage s).
Definition set_anonOperationCount (v : Z) (s : App) : App :=
  mkApp (currentMethod s) (containerFile s) (dataFile s) (extractFile s)
    (stats s) (achievements s) (currentOperationController s) v
    (objectURLs s) (navAvatarVisible s) (nextController s) (aborted s)
    (inflight s) (requests s) (blobStore s) (nextURL s) (resultsContent s)
    (toasts s) (loginPrompt s) (localStorage s).
Definition set_objectURLs (v : gset nat) (s : App) : App :=
  mkApp (currentMethod s) (containerFile s) (dataFile s) (extractFile s)
    (stats s) (achievements s) (currentOperationController s)
    (anonOperationCount s) v (navAvatarVisible s) (nextController s)
    (aborted s) (inflight s) (requests s) (blobStore s) (nextURL s)
    (resultsContent s) (toasts s) (loginPrompt s) (localStorage s).
Definition set_navAvatarVisible (v : bool) (s : App) : App :=
  mkApp (currentMethod s) (containerFile s) (dataFile s) (extractFile s)
    (stats s) (achievements s) (currentOperationController s)
    (anonOperationCount s) (objectURLs s) v (nextController s) (aborted s)
    (inflight s) (requests s) (blobStore s) (nextURL s) (resultsContent s)
    (toasts s) (loginPrompt s) (localStorage s).
Definition set_nextController (v : nat) (s : App) : App :=
  mkApp (currentMethod s) (containerFile s) (dataFile s) (extractFile s)
    (stats s) (achievements s) (currentOperationController s)
    (anonOperationCount s) (objectURLs s) (navAvatarVisible s) v (aborted s)
    (inflight s) (requests s) (blobStore s) (nextURL s) (resultsContent s)
    (toasts s) (loginPrompt s) (localStorage s).
Definition set_aborted (v : gset nat) (s : App) : App :=
  mkApp (currentMethod s) (containerFile s) (dataFile s) (extractFile s)
    (stats s) (achievements s) (currentOperationController s)
    (anonOperationCount s) (objectURLs s) (navAvatarVisible s)
    (nextController s) v (inflight s) (requests s) (blobStore s) (nextURL s)
    (resultsContent s) (toasts s) (loginPrompt s) (localStorage s).
Definition set_inflight (v : list Pending) (s : App) : App :=
  mkApp (currentMethod s) (containerFile s) (dataFile s) (extractFile s)
    (stats s) (achievements s) (currentOperationController s)
    (anonOperationCount s) (objectURLs s) (navAvatarVisible s)
    (nextController s) (aborted s) v (requests s) (blobStore s) (nextURL s)
    (resultsContent s) (toasts s) (loginPrompt s) (localStorage s).
Definition set_requests (v : list Request) (s : App) : App :=
  mkApp (currentMethod s) (containerFile s) (dataFile s) (extractFile s)
    (stats s) (achievements s) (currentOperationController s)
    (anonOperationCount s) (objectURLs s) (navAvatarVisible s)
    (nextController s) (aborted s) (inflight s) v (blobStore s) (nextURL s)
    (resultsContent s) (toasts s) (loginPrompt s) (localStorage s).
Definition set_blobStore (v : gmap nat Blob) (s : App) : App :=
  mkApp (currentMethod s) (containerFile s) (dataFile s) (extractFile s)
    (stats s) (achievements s) (currentOperationController s)
    (anonOperationCount s) (objectURLs s) (navAvatarVisible s)
    (nextController s) (aborted s) (inflight s) (requests s) v (nextURL s)
    (resultsContent s) (toasts s) (loginPrompt s) (localStorage s).
Definition set_nextURL (v : nat) (s : App) : App :=
  mkApp (currentMethod s) (containerFile s) (dataFile s) (extractFile s)
    (stats s) (achievements s) (currentOperationController s)
    (anonOperationCount s) (objectURLs s) (navAvatarVisible s)
    (nextController s) (aborted s) (inflight s) (requests s) (blobStore s) v
    (resultsContent s) (toasts s) (loginPrompt s) (localStorage s).
Definition set_resultsContent (v : list nat) (s : App) : App :=
  mkApp (currentMethod s) (containerFile s) (dataFile s) (extractFile s)
    (stats s) (achievements s) (currentOperationController s)
    (anonOperationCount s) (objectURLs s) (navAvatarVisible s)
    (nextController s) (aborted s) (inflight s) (requests s) (blobStore s)
    (nextURL s) v (toasts s) (loginPrompt s) (localStorage s).
Definition set_toasts (v : list Toast) (s : App) : App :=
  mkApp (currentMethod s) (containerFile s) (dataFile s) (extractFile s)
    (stats s) (achievements s) (currentOperationController s)
    (anonOperationCount s) (objectURLs s) (navAvatarVisible s)
    (nextController s) (aborted s) (inflight s) (requests s) (blobStore s)
    (nextURL s) (resultsContent s) v (loginPrompt s) (localStorage s).
Definition set_loginPrompt (v : bool) (s : App) : App :=
  mkApp (currentMethod s) (containerFile s) (dataFile s) (extractFile s)
    (stats s) (achievements s) (currentOperationController s)
    (anonOperationCount s) (objectURLs s) (navAvatarVisible s)
    (nextController s) (aborted s) (inflight s) (requests s) (blobStore s)
    (nextURL s) (resultsContent s) (toasts s) v (localStorage s).
Definition set_localStorage (v : Storage) (s : App) : App :=
  mkApp (currentMethod s) (containerFile s) (dataFile s) (extractFile s)
    (stats s) (achievements s) (currentOperationController s)
    (anonOperationCount s) (objectURLs s) (navAvatarVisible s)
    (nextController s) (aborted s) (inflight s) (requests s) (blobStore s)
    (nextURL s) (resultsContent s) (toasts s) (loginPrompt s) v.

(* ===================================================================== *)
(** ** State and exceptions                                               *)
(* ===================================================================== *)

(** A computation on the application that returns or throws; the state
    reached is kept in both cases. *)
Definition M (A : Type) : Type := App -> App * (JsError + A).

Definition ret {A} (a : A) : M A := fun s => (s, inr a).
Definition throw {A} (e : JsError) : M A := fun s => (s, inl e).
Definition bind {A B} (m : M A) (k : A -> M B) : M B :=
  fun s =>
    match m s with
    | (s', inr a) => k a s'
    | (s', inl e) => (s', inl e)
    end.
(** A method that cannot throw, run for its effect. *)
Definition act (f : App -> App) : M unit := fun s => (f s, inr tt).
(** Reading [this]. *)
Definition get {A} (f : App -> A) : M A := fun s => (s, inr (f s)).
(** A value or the error thrown in its place. *)
Definition lift {A} (r : JsError + A) : M A := fun s => (s, r).
(** [o.field] where [o] may be [null]. *)
Definition deref {A} (o : option A) (field : string) : M A :=
  match o with
  | Some a => ret a
  | None =>
      throw (mkError "TypeError"
               ("Cannot read properties of null (reading '" +:+ field +:+ "')"))
  end.

Declare Scope js_scope.
Delimit Scope js_scope with js.
Notation "'let!' x := m 'in' k" := (bind m (fun x => k))
  (at level 10, x name, m at level 100, k at level 200) : js_scope.
Notation "'do!' m 'in' k" := (bind m (fun _ => k))
  (at level 10, m at level 100, k at level 200) : js_scope.

(* ===================================================================== *)
(** ** Small methods                                                      *)
(* ===================================================================== *)

(** [isUserLoggedIn()]: the avatar in the navigation bar is shown. *)
Definition isUserLoggedIn (s : App) : bool := navAvatarVisible s.

Definition showToast (title message type : string) (s : App) : App :=
  set_toasts (mkToast title message type :: toasts s) s.

(** [showLoginPrompt()]: one modal at most. *)
Definition showLoginPrompt (s : App) : App :=
  if loginPrompt s then s else set_loginPrompt true s.

Definition saveStats (s : App) : App :=
  set_localStorage
    (mkStorage (stegopro_anon_ops (localStorage s)) (Some (stats s))
       (stegopro_achievements (localStorage s))) s.

Definition saveAchievements (s : App) : App :=
  set_localStorage
    (mkStorage (stegopro_anon_ops (localStorage s))
       (stegopro_stats (localStorage s)) (Some (achievements s))) s.

(** [localStorage.setItem('stegopro_anon_ops', ...)] and [removeItem]. *)
Definition store_anon_ops (v : option Z) (s : App) : App :=
  set_localStorage
    (mkStorage v (stegopro_stats (localStorage s))
       (stegopro_achievements (localStorage s))) s.

(** [saveStatsToCloud()]: the request is issued; its answer is only
    logged. *)
Definition saveStatsToCloud (s : App) : App :=
  set_requests (PostSaveStats (stats s) (achievements s) :: requests s) s.

(* ===================================================================== *)
(** ** ResourceTracker: tracked object URLs                               *)
(* ===================================================================== *)

(** [URL.revokeObjectURL(url)]: the entry leaves the blob URL store; an
    unknown URL is ignored. *)
Definition revokeObjectURL (url : nat) (s : App) : App :=
  set_blobStore (delete url (blobStore s)) s.

(** [cleanupObjectURLs()]. *)
Definition cleanupObjectURLs (s : App) : App :=
  set_objectURLs ∅ (foldr revokeObjectURL s (elements (objectURLs s))).

(** [createTrackedObjectURL(blob)]: a fresh URL, registered and tracked. *)
Definition createTrackedObjectURL (blob : Blob) (s : App) : App * nat :=
  let url := nextURL s in
  let s := set_nextURL (S url) (set_blobStore (<[url := blob]> (blobStore s)) s) in
  (set_objectURLs ({[url]} ∪ objectURLs s) s, url).

(** [revokeTrackedObjectURL(url)]. *)
Definition revokeTrackedObjectURL (url : nat) (s : App) : App :=
  if decide (url ∈ objectURLs s) then
    let s := revokeObjectURL url s in
    set_objectURLs (objectURLs s ∖ {[url]}) s
  else s.

(** [cleanup()]; listeners and animations are not part of the state. *)
Definition cleanup (s : App) : App := cleanupObjectURLs s.

(* ===================================================================== *)
(** ** StatsLedger                                                        *)
(* ===================================================================== *)

(** [updateStatsAfterOperation(operation, dataSize = 0)]. *)
Definition updateStatsAfterOperation (operation : OpKind) (dataSize : Z) (s : App) : App :=
  let st := stats s in
  let st := mkStats (filesProcessed st + 1) (dataHidden st) (successfulOperations st) in
  let st :=
    match operation with
    | Hide => mkStats (filesProcessed st) (dataHidden st + dataSize)
                (successfulOperations st + 1)
    | Extract => mkStats (filesProcessed st) (dataHidden st)
                   (successfulOperations st + 1)
    end in
  saveStatsToCloud (saveStats (set_stats st s)).

(** [hasAchievement(id)]. *)
Definition hasAchievement (id : string) (s : App) : bool :=
  existsb (fun a => String.eqb (ach_id a) id) (achievements s).

(** One rule of [checkAchievements]: the achievement is new when its
    condition holds and its id is not unlocked yet. *)
Definition rule (condition : bool) (a : Achievement) (s : App) : list Achievement :=
  if condition && negb (hasAchievement (ach_id a) s) then [a] else [].

(** The achievements that [checkAchievements] finds new, in its order. *)
Definition newAchievements (s : App) : list Achievement :=
  let st := stats s in
  (rule (filesProcessed st =? 1)
     (mkAchievement "first_file" "Первый шаг" "Обработан первый файл") s
   ++ rule (1024 * 1024 <=? dataHidden st)
        (mkAchievement "data_hider" "Скрыватель данных" "Скрыто более 1MB данных") s
   ++ rule (10 <=? filesProcessed st)
        (mkAchievement "pro_user" "Профессиональный пользователь" "Обработано 10 файлов") s
   ++ rule (20 <=? filesProcessed st)
        (mkAchievement "master" "Мастер стеганографии" "Обработано 20+ файлов") s
   ++ rule (10 * 1024 * 1024 <=? dataHidden st)
        (mkAchievement "megabyte_hider" "Мегабайтщик" "Скрыто более 10MB данных") s
   ++ rule (5 <=? successfulOperations st)
        (mkAchievement "extractor" "Извлекатель" "Успешно извлечено 5 файлов") s
   ++ rule ((10 <=? filesProcessed st)
            && (successfulOperations st =? filesProcessed st))
        (mkAchievement "perfectionist" "Перфекционист"
           "100% успешных операций (минимум 10)") s)%Z.

(** [showAchievement(achievement)]. *)
Definition showAchievement (a : Achievement) (s : App) : App :=
  showToast "Достижение разблокировано!"
    (ach_name a +:+ ": " +:+ ach_description a) "success" s.

(** [checkAchievements()]. *)
Definition checkAchievements (s : App) : App :=
  let new := newAchievements s in
  let s :=
    fold_left
      (fun s a => showAchievement a (set_achievements (achievements s ++ [a]) s))
      new s in
  match new with
  | [] => s
  | _ => saveStatsToCloud (saveAchievements s)
  end.

(* ===================================================================== *)
(** ** File selection                                                     *)
(* ===================================================================== *)

Definition set_slot (slot : FileSlot) (f : option File) (s : App) : App :=
  match slot with
  | SlotContainer => set_containerFile f s
  | SlotData => set_dataFile f s
  | SlotExtract => set_extractFile f s
  end.

(** [processFile(file, type)]; the two toasts that quote a size and the
    list of formats are shown here without the quoted part. *)
Definition processFile (file : File) (type : FileSlot) (s : App) : App :=
  let sanitizedName := sanitizeFilename (file_name file) in
  match sanitizedName with
  | [] => showToast "Ошибка" "Недопустимое имя файла." "error" s
  | _ =>
      let MAX_FILE_SIZE := (50 * 1024 * 1024)%Z in
      if (MAX_FILE_SIZE <? file_size file)%Z then
        showToast "Ошибка" "Файл слишком большой. Максимум 50 МБ." "error" s
      else if (file_size file =? 0)%Z then
        showToast "Ошибка" "Файл пустой." "error" s
      else
        let accepted :=
          match type with
          | SlotData => true
          | _ => existsb (jsstring_eqb (dot_extension (file_name file)))
                   carrier_extensions
          end in
        if accepted then set_slot type (Some file) s
        else showToast "Ошибка" "Неподдерживаемый формат файла." "error" s
  end.

(** [removeFile(type)]. *)
Definition removeFile (type : FileSlot) (s : App) : App := set_slot type None s.

(** [selectMethod(method)]. *)
Definition selectMethod (method : string) (s : App) : App :=
  set_currentMethod (Some method) s.

(** [showHideInterface()]: without a method, [lsb] is selected. *)
Definition showHideInterface (s : App) : App :=
  match currentMethod s with
  | None => selectMethod "lsb" s
  | Some _ => s
  end.

(* ===================================================================== *)
(** ** OperationController                                                *)
(* ===================================================================== *)

(** The limits written in [startHiding] and [startExtracting]. *)
Definition HIDE_LIMIT : Z := 10.
Definition EXTRACT_LIMIT : Z := 2.

(** The guard at the head of both start methods:
    [if (!this.isUserLoggedIn()) { if (this.anonOperationCount >= limit) ...]. *)
Definition quota_reached (limit : Z) (s : App) : bool :=
  negb (isUserLoggedIn s) && (limit <=? anonOperationCount s)%Z.

(** Which way a start method left. *)
Inductive StartOutcome :=
| QuotaExceeded               (* the login prompt, then [return] *)
| InvalidRequest              (* the toast about missing files, then [return] *)
| Started (controller : nat). (* suspended in hideData / extractData *)

(** [new AbortController()], stored in [currentOperationController]. *)
Definition newController (s : App) : App * nat :=
  let c := nextController s in
  (set_currentOperationController (Some c) (set_nextController (S c) s), c).

(** [startHiding()] up to its first suspension, which is the first
    [await] of [hideData]. *)
Definition startHiding (password : string) (s : App) : App * StartOutcome :=
  if quota_reached HIDE_LIMIT s then (showLoginPrompt s, QuotaExceeded)
  else
    match containerFile s, dataFile s, currentMethod s with
    | Some container, Some data, Some _ =>
        let (s, c) := newController s in
        (set_inflight (mkPending c (HideArgs container data) password Reading :: inflight s) s,
         Started c)
    | _, _, _ =>
        (showToast "Ошибка" "Не все необходимые файлы выбраны" "error" s,
         InvalidRequest)
    end.

(** [startExtracting()] up to its first suspension. *)
Definition startExtracting (password : string) (s : App) : App * StartOutcome :=
  if quota_reached EXTRACT_LIMIT s then (showLoginPrompt s, QuotaExceeded)
  else
    match extractFile s with
    | Some stego =>
        let (s, c) := newController s in
        (set_inflight (mkPending c (ExtractArgs stego) password Reading :: inflight s) s,
         Started c)
    | None =>
        (showToast "Ошибка" "Не выбран файл для извлечения" "error" s,
         InvalidRequest)
    end.

(** [cancelOperation()]. *)
Definition cancelOperation (s : App) : App :=
  let s :=
    match currentOperationController s with
    | Some c => set_currentOperationController None (set_aborted ({[c]} ∪ aborted s) s)
    | None => s
    end in
  let s := set_containerFile None s in
  let s := set_dataFile None s in
  let s := set_extractFile None s in
  let s := set_currentOperationController None s in
  set_resultsContent [] s.

(** The rejection of [fetch] or [response.json()] under an aborted
    signal. *)
Definition AbortError : JsError :=
  mkError "AbortError" "signal is aborted without reason".

(** The [catch] of [hideData] and of [extractData]: whatever was thrown is
    thrown again as [new Error(prefix + error.message)]. *)
Definition rewrap {A} (prefix : string) (r : JsError + A) : JsError + A :=
  match r with
  | inr a => inr a
  | inl error => inl (new_Error (prefix +:+ err_message error))
  end.

Definition error_prefix (kind : OpKind) : string :=
  match kind with
  | Hide => "Ошибка при сокрытии данных: "
  | Extract => "Ошибка при извлечении данных: "
  end.

(** What the [try] block of [hideData] / [extractData] does once the
    exchange has settled: [response.ok], [response.json()],
    [result.success]. *)
Definition read_response (signal_aborted : bool) (o : FetchOutcome)
  : JsError + ServiceResult :=
  if signal_aborted then inl AbortError
  else
    match o with
    | NetworkFailure => inl (mkError "TypeError" "Failed to fetch")
    | HttpResponse ok status body =>
        if negb ok then inl (new_Error ("HTTP error! status: " +:+ pretty status))
        else
          match body with
          | None => inl (mkError "SyntaxError" "Unexpected token in JSON")
          | Some result =>
              if negb (res_success result) then inl (new_Error (res_error result))
              else inr result
          end
    end.

(** [getMimeType(extension)]: the table and its default. The code looks
    the extension up in a plain object, so for the name of a property
    that every object inherits ([constructor], [toString], ...) it finds
    that property where the table here gives the default; no property
    below is about the type found for such a name. *)
Definition getMimeType (extension : jsstring) : string :=
  let e := toLowerCase extension in
  if jsstring_eqb e (js "txt") then "text/plain"
  else if jsstring_eqb e (js "pdf") then "application/pdf"
  else if jsstring_eqb e (js "jpg") then "image/jpeg"
  else if jsstring_eqb e (js "jpeg") then "image/jpeg"
  else if jsstring_eqb e (js "png") then "image/png"
  else if jsstring_eqb e (js "gif") then "image/gif"
  else if jsstring_eqb e (js "bmp") then "image/bmp"
  else if jsstring_eqb e (js "mp3") then "audio/mpeg"
  else if jsstring_eqb e (js "wav") then "audio/wav"
  else if jsstring_eqb e (js "mp4") then "video/mp4"
  else if jsstring_eqb e (js "zip") then "application/zip"
  else if jsstring_eqb e (js "doc") then "application/msword"
  else if jsstring_eqb e (js "docx")
       then "application/vnd.openxmlformats-officedocument.wordprocessingml.document"
  else "application/octet-stream".

(** [showResults(operation, result)]: the output is decoded, its URL
    tracked and the download link shown. *)
Definition showResults (operation : OpKind) (result : ServiceResult) : M unit :=
  (let! mimeType :=
     match operation with
     | Hide =>
         let! container := get containerFile in
         let! _ := deref container "name" in
         ret "application/octet-stream"
     | Extract =>
         let fileExtension :=
           match res_original_filename result, res_file_extension result with
           | [], (_ :: _) as ext => ext
           | _, _ => js "bin"
           end in
         ret (getMimeType fileExtension)
     end in
   let! blob := lift (base64ToBlob (res_data result) mimeType) in
   let! url := (fun s => let (s, url) := createTrackedObjectURL blob s in (s, inr url)) in
   act (set_resultsContent [url]))%js.

(** The suspended operation with signal [c] at stage [st], if any. *)
Definition find_pending (c : nat) (st : Stage) (s : App) : option Pending :=
  List.find
    (fun p => Nat.eqb (p_signal p) c
              && match p_stage p, st with
                 | Reading, Reading | Fetching, Fetching => true
                 | _, _ => false
                 end)
    (inflight s).

(** The operation with signal [c] is suspended no more. *)
Definition remove_pending (c : nat) (s : App) : App :=
  set_inflight (List.filter (fun p => negb (Nat.eqb (p_signal p) c)) (inflight s)) s.

(** What one of the two readers of the codec delivers. *)
Definition read_file (loaded : bool) (f : File) : JsError + jsval :=
  if loaded then fileToBase64Chunked f else fileToBase64_settle onerror.

(** [fetch(url, { ..., signal })]: under an aborted signal it rejects at
    once and nothing is sent. *)
Definition fetch (signal : nat) (req : Request) : M unit :=
  fun s =>
    if decide (signal ∈ aborted s) then (s, inl AbortError)
    else (set_requests (req :: requests s) s, inr tt).

(** The [try] block of [hideData] / [extractData] from the encoding of the
    files to the call of [fetch]. *)
Definition send_request (loaded : bool) (p : Pending) : M unit :=
  (match p_args p with
   | HideArgs containerFile dataFile =>
       let! containerB64 := lift (read_file loaded containerFile) in
       let! secretB64 := lift (read_file loaded dataFile) in
       let! method := get currentMethod in
       fetch (p_signal p)
         (PostHide (p_signal p) containerB64 secretB64 method (p_password p)
            (file_name dataFile))
   | ExtractArgs stegoFile =>
       let! stegoB64 := lift (read_file loaded stegoFile) in
       fetch (p_signal p) (PostExtract (p_signal p) stegoB64 (p_password p))
   end)%js.

(** How an operation ended. *)
Inductive Outcome :=
| Succeeded
| Failed (error : JsError)    (* the toast of the [catch] was shown *)
| Cancelled.                  (* the [catch] saw an [AbortError] *)

(** The [try] block of a start method after
    [await this.hideData(...)] / [await this.extractData(...)]. *)
Definition on_success (kind : OpKind) (result : ServiceResult) : M unit :=
  (do! showResults kind result in
   let! dataSize :=
     match kind with
     | Hide =>
         let! data := get dataFile in
         let! d := deref data "size" in
         ret (file_size d)
     | Extract => ret 0%Z
     end in
   do! act (updateStatsAfterOperation kind dataSize) in
   do! act checkAchievements in
   let! loggedIn := get isUserLoggedIn in
   if negb loggedIn then
     act (fun s =>
            let s := set_anonOperationCount (anonOperationCount s + 1) s in
            store_anon_ops (Some (anonOperationCount s)) s)
   else ret tt)%js.

(** The [catch] block of a start method. *)
Definition on_error (kind : OpKind) (error : JsError) (s : App) : App * Outcome :=
  if negb (String.eqb (err_name error) "AbortError") then
    (showToast "Ошибка"
       ((match kind with
         | Hide => "Не удалось скрыть данные: "
         | Extract => "Не удалось извлечь данные: "
         end) +:+ err_message error) "error" s,
     Failed error)
  else (s, Cancelled).

(** A start method from the moment its [await] settles with [r]:
    [try], [catch] and [finally]. *)
Definition finish (p : Pending) (r : JsError + ServiceResult) (s : App) : App * Outcome :=
  let kind := kind_of (p_args p) in
  let s := remove_pending (p_signal p) s in
  let (s, o) :=
    match (let! result := lift r in on_success kind result)%js s with
    | (s, inr _) => (s, Succeeded)
    | (s, inl error) => on_error kind error s
    end in
  (set_currentOperationController None s, o).

(** The readers of operation [c] are done: the request goes out, or the
    operation ends on what was thrown. *)
Definition files_read (c : nat) (loaded : bool) (s : App) : App * option Outcome :=
  match find_pending c Reading s with
  | None => (s, None)
  | Some p =>
      match send_request loaded p s with
      | (s, inr _) =>
          (set_inflight
             (map (fun q => if Nat.eqb (p_signal q) c
                            then mkPending c (p_args q) (p_password q) Fetching
                            else q) (inflight s)) s,
           None)
      | (s, inl error) =>
          let (s, o) := finish p (rewrap (error_prefix (kind_of (p_args p))) (inl error)) s in
          (s, Some o)
      end
  end.

(** The exchange of operation [c] settles with [o]. *)
Definition settled (c : nat) (o : FetchOutcome) (s : App) : App * option Outcome :=
  match find_pending c Fetching s with
  | None => (s, None)
  | Some p =>
      let r := read_response (bool_decide (c ∈ aborted s)) o in
      let (s, out) := finish p (rewrap (error_prefix (kind_of (p_args p))) r) s in
      (s, Some out)
  end.

(* ===================================================================== *)
(** ** Session: login state, logout, start of the page                    *)
(* ===================================================================== *)

(** [loadGoogleUser()] up to its [await]: the request goes out. *)
Definition loadGoogleUser (s : App) : App :=
  set_requests (GetUser :: requests s) s.

(** [loadGoogleUser()] from the answer on; [None] stands for a failed
    request or a body that is not JSON (the [catch]). *)
Definition userLoaded (user : option UserInfo) (s : App) : App :=
  match user with
  | Some u =>
      if logged_in u then
        let s := set_navAvatarVisible (has_picture u) s in
        let s :=
          match user_stats u with
          | Some (st, achs) =>
              let s := set_stats st s in
              let s := set_achievements (default [] achs) s in
              saveAchievements (saveStats s)
          | None => s
          end in
        store_anon_ops None (set_anonOperationCount 0 s)
      else set_navAvatarVisible false s
  | None => set_navAvatarVisible false s
  end.

(** [logoutGoogle()]; the answer of [/api/logout] is not looked at. *)
Definition logoutGoogle (s : App) : App :=
  let s := set_requests (PostLogout :: requests s) s in
  let s := set_stats (mkStats 0 0 0) s in
  let s := set_achievements [] s in
  let s := saveAchievements (saveStats s) in
  let s := loadGoogleUser s in
  showToast "Успешно" "Вы вышли из аккаунта" "success" s.

(** [showProfile()], its effect on the state. *)
Definition showProfile (s : App) : App := loadGoogleUser s.

(** [new StegoProApp()]: the constructor and [init()], on the
    [localStorage] found and the avatar as the page shows it at first. *)
Definition new_StegoProApp (ls : Storage) (navAvatar : bool) : App :=
  let s :=
    mkApp None None None None
      (default (mkStats 0 0 0) (stegopro_stats ls))
      (default [] (stegopro_achievements ls))
      None
      (default 0%Z (stegopro_anon_ops ls))
      ∅ navAvatar 0%nat ∅ [] [] ∅ 0%nat [] [] false ls in
  loadGoogleUser (checkAchievements s).

(* ===================================================================== *)
(** ** The program as a transition system                                 *)
(* ===================================================================== *)

(** What can happen to a running page: the user acts, a reader or an
    exchange completes, a timer fires. *)
Inductive Event :=
| EvSelectMethod (method : string)
| EvShowHideInterface
| EvProcessFile (file : File) (type : FileSlot)
| EvRemoveFile (type : FileSlot)
| EvStartHiding (password : string)
| EvStartExtracting (password : string)
| EvFilesRead (c : nat) (loaded : bool)
| EvSettled (c : nat) (o : FetchOutcome)
| EvCancelOperation
| EvRevoke (url : nat)          (* a download link was clicked *)
| EvShowProfile
| EvUserLoaded (user : option UserInfo)
| EvLogoutGoogle.

Definition step (e : Event) (s : App) : App :=
  match e with
  | EvSelectMethod m => selectMethod m s
  | EvShowHideInterface => showHideInterface s
  | EvProcessFile f t => processFile f t s
  | EvRemoveFile t => removeFile t s
  | EvStartHiding pw => fst (startHiding pw s)
  | EvStartExtracting pw => fst (startExtracting pw s)
  | EvFilesRead c loaded => fst (files_read c loaded s)
  | EvSettled c o => fst (settled c o s)
  | EvCancelOperation => cancelOperation s
  | EvRevoke url => revokeTrackedObjectURL url s
  | EvShowProfile => showProfile s
  | EvUserLoaded u => userLoaded u s
  | EvLogoutGoogle => logoutGoogle s
  end.

(** A run: the events in the order they happen. *)
Definition run (es : list Event) (s : App) : App :=
  fold_left (fun s e => step e s) es s.

(** Both start methods under one name. *)
Definition start (kind : OpKind) (password : string) (s : App) : App * StartOutcome :=
  match kind with
  | Hide => startHiding password s
  | Extract => startExtracting password s
  end.

(** The limit each start method compares the counter with. *)
Definition limit (kind : OpKind) : Z :=
  match kind with
  | Hide => HIDE_LIMIT
  | Extract => EXTRACT_LIMIT
  end.

(** The outcome an event ends an operation with, if it ends one. *)
Definition outcome_of (e : Event) (s : App) : option Outcome :=
  match e with
  | EvFilesRead c loaded => snd (files_read c loaded s)
  | EvSettled c o => snd (settled c o s)
  | _ => None
  end.

(** The event ended an operation with success. *)
Definition succeeded (o : option Outcome) : bool :=
  match o with Some Succeeded => true | _ => false end.

(** The event that resumes a suspended operation: the completion of its
    readers while it reads, the settling of its exchange while it
    fetches. *)
Definition resume (p : Pending) (loaded : bool) (o : FetchOutcome) : Event :=
  match p_stage p with
  | Reading => EvFilesRead (p_signal p) loaded
  | Fetching => EvSettled (p_signal p) o
  end.

(** Each field at most what it is in the second record. *)
Definition stats_le (a b : Stats) : Prop :=
  (filesProcessed a <= filesProcessed b
   /\ dataHidden a <= dataHidden b
   /\ successfulOperations a <= successfulOperations b)%Z.

(** The events that assign [this.stats] anew: logout and the arrival of a
    profile; all others are local. *)
Definition local_event (e : Event) : bool :=
  match e with
  | EvLogoutGoogle | EvUserLoaded _ => false
  | _ => true
  end.

(* ===================================================================== *)
(** ** Further methods of [StegoProApp]                                   *)
(* ===================================================================== *)

(** The [fileExtension] that [hideData] sends:
    [originalFileName.includes('.') ? originalFileName.split('.').pop() : 'bin']. *)
Definition hide_file_extension (originalFileName : jsstring) : jsstring :=
  if existsb (N.eqb 46) originalFileName
  then List.last (split_on 46 originalFileName) []
  else js "bin".

(** The theme: the class [dark] of the root element, the class of the
    icon in the toggle, and the key [theme] of [localStorage]. *)
Record Theme := mkTheme {
  html_dark : bool;
  theme_icon : string;
  stored_theme : option string
}.

(** [loadTheme()]: [localStorage.getItem('theme') || 'dark']. *)
Definition loadTheme (t : Theme) : Theme :=
  let saved :=
    match stored_theme t with
    | Some v => if String.eqb v "" then "dark"%string else v
    | None => "dark"%string
    end in
  if String.eqb saved "light"
  then mkTheme false "fas fa-sun" (stored_theme t)
  else mkTheme true "fas fa-moon" (stored_theme t).

(** [toggleTheme()]. *)
Definition toggleTheme (t : Theme) (s : App) : Theme * App :=
  let isCurrentlyDark := html_dark t in
  let willBeDark := negb isCurrentlyDark in
  (mkTheme willBeDark
     (if willBeDark then "fas fa-moon" else "fas fa-sun")
     (Some (if willBeDark then "dark" else "light")),
   showToast "Успех"
     ("Тема: " +:+ (if willBeDark then "Темная" else "Светлая")) "success" s).

(* ===================================================================== *)
(** ** The variant of the class in [src/app.js]                           *)
(* ===================================================================== *)

(** [base64ToBlob] of [app.js]: slices of 512 characters, no [catch]. *)
Definition base64ToBlob_app (base64 : jsval) (mimeType : string) : JsError + Blob :=
  match atob base64 with
  | inr byteCharacters =>
      let byteArrays :=
        slice_loop (length byteCharacters) (N.to_nat 512) 0 byteCharacters in
      inr (mkBlob (concat byteArrays) mimeType)
  | inl e => inl e
  end.

(** [checkAchievements] of [app.js]: three rules. *)
Definition newAchievements_app (s : App) : list Achievement :=
  let st := stats s in
  (rule (filesProcessed st =? 1)
     (mkAchievement "first_file" "Первый шаг" "Обработан первый файл") s
   ++ rule (1024 * 1024 <=? dataHidden st)
        (mkAchievement "data_hider" "Скрыватель данных" "Скрыто более 1MB данных") s
   ++ rule (10 <=? filesProcessed st)
        (mkAchievement "professional" "Профессионал" "Обработано 10 файлов") s)%Z.

Definition checkAchievements_app (s : App) : App :=
  let new := newAchievements_app s in
  let s :=
    fold_left
      (fun s a => showAchievement a (set_achievements (achievements s ++ [a]) s))
      new s in
  match new with
  | [] => s
  | _ => saveStatsToCloud (saveAchievements s)
  end.

(** [showResults] of [app.js]: the URL comes from [URL.createObjectURL]
    and is not tracked. *)
Definition showResults_app (operation : OpKind) (result : ServiceResult) : M unit :=
  (let! mimeType :=
     match operation with
     | Hide =>
         let! container := get containerFile in
         let! _ := deref container "name" in
         ret "application/octet-stream"
     | Extract =>
         let fileExtension :=
           match res_original_filename result, res_file_extension result with
           | [], (_ :: _) as ext => ext
           | _, _ => js "bin"
           end in
         ret (getMimeType fileExtension)
     end in
   let! blob := lift (base64ToBlob_app (res_data result) mimeType) in
   let! url :=
     (fun s =>
        let url := nextURL s in
        (set_nextURL (S url) (set_blobStore (<[url := blob]> (blobStore s)) s),
         inr url)) in
   act (set_resultsContent [url]))%js.

(** The [try] block of the start methods of [app.js] after the [await]. *)
Definition on_success_app (kind : OpKind) (result : ServiceResult) : M unit :=
  (do! showResults_app kind result in
   let! dataSize :=
     match kind with
     | Hide =>
         let! data := get dataFile in
         let! d := deref data "size" in
         ret (file_size d)
     | Extract => ret 0%Z
     end in
   do! act (updateStatsAfterOperation kind dataSize) in
   act checkAchievements_app)%js.

(** A start method of [app.js] from the moment its [await] settles; the
    [catch] and the [finally] are those of [pres.js]. *)
Definition finish_app (p : Pending) (r : JsError + ServiceResult) (s : App) : App * Outcome :=
  let kind := kind_of (p_args p) in
  let s := remove_pending (p_signal p) s in
  let (s, o) :=
    match (let! result := lift r in on_success_app kind result)%js s with
    | (s, inr _) => (s, Succeeded)
    | (s, inl error) => on_error kind error s
    end in
  (set_currentOperationController None s, o).

(** The exchange of operation [c] settles, in [app.js]: [hideData] and
    [extractData] have no [catch], what they throw reaches the start
    method as it is. *)
Definition settled_app (c : nat) (o : FetchOutcome) (s : App) : App * option Outcome :=
  match find_pending c Fetching s with
  | None => (s, None)
  | Some p =>
      let r := read_response (bool_decide (c ∈ aborted s)) o in
      let (s, out) := finish_app p r s in
      (s, Some out)
  end.

(* ===================================================================== *)
(** ** PresentationController                                             *)
(* ===================================================================== *)

(** What the controller finds in the document besides the slides and the
    buttons: whether each slide holds a [.slide-content], whether
    [document.fullscreenElement] is set, and whether
    [document.documentElement.requestFullscreen] is there (the method of
    the standard, which returns a promise). The browser alone changes
    [fullscreenElement], after the listener has returned. *)
Record Document := mkDocument {
  slide_content : list bool;
  fullscreenElement : bool;
  requestFullscreen : bool
}.

(** The controller of the slides: its fields, the class [active] of each
    slide, the two navigation buttons and the rest of the document. *)
Record Presentation := mkPresentation {
  currentSlide : Z;
  totalSlides : Z;
  slides : list bool;          (* slide i carries the class active *)
  prevBtn_disabled : bool;
  nextBtn_disabled : bool;
  shown_counter : Z * Z;       (* #currentSlide and #totalSlides *)
  document : Document
}.

(** [this.slides[i]], [undefined] outside the list. *)
Definition slide_at (i : Z) (p : Presentation) : option bool :=
  if (i <? 0)%Z then None else slides p !! Z.to_nat i.

(** [this.slides[i].classList.add / remove('active')]. *)
Definition set_active (i : Z) (v : bool) (p : Presentation) : Presentation :=
  mkPresentation (currentSlide p) (totalSlides p)
    (<[Z.to_nat i := v]> (slides p))
    (prevBtn_disabled p) (nextBtn_disabled p) (shown_counter p) (document p).

(** [updateNavigation()] and [updateSlideCounter()]. *)
Definition updateNavigation (p : Presentation) : Presentation :=
  mkPresentation (currentSlide p) (totalSlides p) (slides p)
    (currentSlide p =? 1)%Z (currentSlide p =? totalSlides p)%Z
    (shown_counter p) (document p).

Definition updateSlideCounter (p : Presentation) : Presentation :=
  mkPresentation (currentSlide p) (totalSlides p) (slides p)
    (prevBtn_disabled p) (nextBtn_disabled p)
    (currentSlide p, totalSlides p) (document p).

Definition undefined_classList : JsError :=
  mkError "TypeError" "Cannot read properties of undefined (reading 'classList')".

(** [animateSlideContent()], what it throws: [querySelector] gives [null]
    on a slide without [.slide-content], and [content.style] throws.
    Otherwise it only restyles, and so do [animateSlideElements] and the
    progress indicator. *)
Definition animateSlideContent (p : Presentation) : option JsError :=
  match slide_content (document p) !! Z.to_nat (currentSlide p - 1) with
  | Some true => None
  | _ => Some (mkError "TypeError" "Cannot read properties of null (reading 'style')")
  end.

(** [goToSlide(slideNumber)]: the state reached and what was thrown, if
    anything. *)
Definition goToSlide (slideNumber : Z) (p : Presentation) : Presentation * option JsError :=
  if ((slideNumber <? 1) || (totalSlides p <? slideNumber))%Z then (p, None)
  else
    match slide_at (currentSlide p - 1) p with
    | None => (p, Some undefined_classList)
    | Some _ =>
        let p := set_active (currentSlide p - 1) false p in
        let p :=
          mkPresentation slideNumber (totalSlides p) (slides p)
            (prevBtn_disabled p) (nextBtn_disabled p) (shown_counter p)
            (document p) in
        match slide_at (currentSlide p - 1) p with
        | None => (p, Some undefined_classList)
        | Some _ =>
            let p := set_active (currentSlide p - 1) true p in
            let p := updateSlideCounter (updateNavigation p) in
            (p, animateSlideContent p)
        end
    end.

(** [nextSlide()] and [previousSlide()]. *)
Definition nextSlide (p : Presentation) : Presentation * option JsError :=
  if (currentSlide p <? totalSlides p)%Z then goToSlide (currentSlide p + 1) p
  else (p, None).

Definition previousSlide (p : Presentation) : Presentation * option JsError :=
  if (1 <? currentSlide p)%Z then goToSlide (currentSlide p - 1) p
  else (p, None).

(** [toggleFullscreen()], what it throws: outside fullscreen it calls
    [document.documentElement.requestFullscreen().catch(...)], which
    throws where the method is missing; in fullscreen the call of
    [exitFullscreen] is guarded. The request itself is settled by the
    browser later. *)
Definition toggleFullscreen (p : Presentation) : option JsError :=
  if fullscreenElement (document p) then None
  else if requestFullscreen (document p) then None
  else Some (mkError "TypeError"
               "document.documentElement.requestFullscreen is not a function").

(** The [keydown] listener; the other keys do nothing. *)
Definition keydown (key : string) (p : Presentation) : Presentation * option JsError :=
  if String.eqb key "ArrowLeft" || String.eqb key "ArrowUp" then previousSlide p
  else if String.eqb key "ArrowRight" || String.eqb key "ArrowDown"
          || String.eqb key " " then nextSlide p
  else if String.eqb key "Home" then goToSlide 1 p
  else if String.eqb key "End" then goToSlide (totalSlides p) p
  else if String.eqb key "F11" then (p, toggleFullscreen p)
  else (p, None).

(** The keys pressed one after the other; a listener that throws ends
    only its own call. *)
Definition press (keys : list string) (p : Presentation) : Presentation :=
  fold_left (fun p key => fst (keydown key p)) keys p.

(** [nextSlide()] called [n] times. *)
Fixpoint next_times (n : nat) (p : Presentation) : Presentation :=
  match n with
  | O => p
  | S n' => next_times n' (fst (nextSlide p))
  end.

(** The constructor with [init()], on a page with the given slides in the
    given document. *)
Definition new_PresentationController (slideElements : list bool) (doc : Document)
  : Presentation :=
  updateSlideCounter
    (updateNavigation (mkPresentation 1 17 slideElements false false (0, 0)%Z doc)).

(* ===================================================================== *)
(** ** Predicates on states                                               *)
(* ===================================================================== *)

(** What [processFile] demands of every file. *)
Definition valid_file (f : File) : Prop :=
  (0 < file_size f <= 50 * 1024 * 1024)%Z /\ sanitizeFilename (file_name f) <> [].

(** What it demands of a container and of a file to extract from. *)
Definition valid_carrier (f : File) : Prop :=
  valid_file f /\ In (dot_extension (file_name f)) carrier_extensions.

(** What [processFile] demands for a slot. *)
Definition valid_for (type : FileSlot) (f : File) : Prop :=
  match type with
  | SlotData => valid_file f
  | _ => valid_carrier f
  end.

Definition valid_args (a : OpArgs) : Prop :=
  match a with
  | HideArgs container data => valid_carrier container /\ valid_file data
  | ExtractArgs stego => valid_carrier stego
  end.

(** Every selected file and every file of a suspended operation went
    through the checks of [processFile]. *)
Definition files_validated (s : App) : Prop :=
  (forall f, containerFile s = Some f -> valid_carrier f)
  /\ (forall f, dataFile s = Some f -> valid_file f)
  /\ (forall f, extractFile s = Some f -> valid_carrier f)
  /\ Forall (fun p => valid_args (p_args p)) (inflight s).

(** Every tracked URL is in the blob URL store and every URL of the store
    was handed out before. *)
Definition tracker_wf (s : App) : Prop :=
  (forall u, u ∈ objectURLs s -> is_Some (blobStore s !! u))
  /\ (forall u, is_Some (blobStore s !! u) -> (u < nextURL s)%nat).

(** The local storage holds the ledger as the page has it. *)
Definition persisted (s : App) : Prop :=
  default (mkStats 0 0 0) (stegopro_stats (localStorage s)) = stats s
  /\ default [] (stegopro_achievements (localStorage s)) = achievements s
  /\ default 0%Z (stegopro_anon_ops (localStorage s)) = anonOperationCount s.

(** The slides, the buttons and the counter agree with [currentSlide]:
    the page has [totalSlides] slides, of which the current one alone is
    active. *)
Definition presentation_wf (p : Presentation) : Prop :=
  (1 <= currentSlide p <= totalSlides p)%Z
  /\ Z.of_nat (length (slides p)) = totalSlides p
  /\ (forall i, (i < length (slides p))%nat ->
        slides p !! i = Some (bool_decide (Z.of_nat i = currentSlide p - 1)%Z))
  /\ prevBtn_disabled p = (currentSlide p =? 1)%Z
  /\ nextBtn_disabled p = (currentSlide p =? totalSlides p)%Z
  /\ shown_counter p = (currentSlide p, totalSlides p).

(** Nothing the listener reaches for is missing from the document: every
    slide holds a [.slide-content], and fullscreen can be asked for or is
    on. *)
Definition document_complete (p : Presentation) : Prop :=
  (forall i, (i < length (slides p))%nat ->
     slide_content (document p) !! i = Some true)
  /\ (fullscreenElement (document p) = true \/ requestFullscreen (document p) = true).

(** A document for the seventeen slides of the presentation. *)
Definition seventeen_slides : Document :=
  mkDocument (replicate 17 true) false true.

(** The signal of the operation that an event resumes. *)
Definition signal_of (e : Event) : option nat :=
  match e with
  | EvFilesRead c _ | EvSettled c _ => Some c
  | _ => None
  end.

(** The suspended operation that an event resumes, if any. *)
Definition resumed (e : Event) (s : App) : option Pending :=
  match e with
  | EvFilesRead c _ => find_pending c Reading s
  | EvSettled c _ => find_pending c Fetching s
  | _ => None
  end.

(** The head of the message in the toast of the [catch] of a start
    method. *)
Definition failure_prefix (kind : OpKind) : string :=
  match kind with
  | Hide => "Не удалось скрыть данные: "
  | Extract => "Не удалось извлечь данные: "
  end.


(* ===================================================================== *)
(** ** Scenarios                                                          *)
(* ===================================================================== *)

(** A page opened for the first time, nobody logged in. *)
Definition first_visit : App :=
  new_StegoProApp (mkStorage None None None) false.



Definition carrier_png : File :=
  mkFile (js "photo.png") (js "image/png") [x89; x50; x4e; x47].

Definition secret_txt : File :=
  mkFile (js "secret.txt") (js "text/plain") [x68; x69].

(** A positive answer of the service carrying three bytes. *)
Definition positive_answer : FetchOutcome :=
  HttpResponse true 200 (Some (mkResult true "" (JStr (js "SGVs")) [] [])).

(** The user picks both files and starts hiding. *)
Definition pick_and_hide : list Event :=
  [EvShowHideInterface; EvProcessFile carrier_png SlotContainer;
   EvProcessFile secret_txt SlotData; EvStartHiding "pw"].

(** The user picks a carrier and extracts from it, the service answering
    positively; [c] is the controller the start makes. *)
Definition one_extract (c : nat) : list Event :=
  [EvProcessFile carrier_png SlotExtract; EvStartExtracting "pw";
   EvFilesRead c true; EvSettled c positive_answer].

(** A hide that succeeds (its result stays on the page), the button for a
    new operation, then a second hide cancelled while its exchange is
    under way; the exchange settles afterwards. *)
Definition hide_then_cancelled_hide : list Event :=
  pick_and_hide ++ [EvFilesRead 0 true; EvSettled 0 positive_answer;
                    EvCancelOperation]
  ++ pick_and_hide ++ [EvFilesRead 1 true; EvCancelOperation;
                       EvSettled 1 positive_answer].


(** An extraction from [stego] suspended on its readers. *)
Definition reading (stego : File) (c : nat) : Pending :=
  mkPending c (ExtractArgs stego) "pw" Reading.

(** The state while the extractions are started. *)
Definition started (stego : File) (k : nat) (s : App) : Prop :=
  extractFile s = Some stego
  /\ navAvatarVisible s = false
  /\ anonOperationCount s = 0%Z
  /\ aborted s = ∅
  /\ nextController s = k
  /\ inflight s = map (reading stego) (rev (seq 0 k)).

(** The state while they are carried to their ends: [k] are left, [j] are
    counted. *)
Definition draining (stego : File) (k : nat) (j : Z) (s : App) : Prop :=
  navAvatarVisible s = false
  /\ aborted s = ∅
  /\ anonOperationCount s = j
  /\ inflight s = map (reading stego) (rev (seq 0 k)).

(** A file of exactly 1 MiB, the size from which [fileToBase64Chunked]
    reads with its own reader. *)
Definition one_mebibyte : File :=
  mkFile (js "big.bin") (js "application/octet-stream")
    (repeat x00 (N.to_nat 1048576)).


(** The profile of a session that is logged in and has no picture. *)
Definition profile_without_picture : UserInfo := mkUser true false None.

(** A file to extract from is picked, [n] extractions are started one
    after the other, and each is then carried to its end, the service
    answering positively, the last started first. *)
Definition burst (n : nat) : list Event :=
  EvProcessFile carrier_png SlotExtract
  :: repeat (EvStartExtracting "pw") n
  ++ flat_map (fun c => [EvFilesRead c true; EvSettled c positive_answer])
       (rev (seq 0 n)).

(* ===================================================================== *)
(** * Properties                                                          *)
(* ===================================================================== *)

(** ** BinaryCodec *)

Section Codec.

(** Induction on byte sequences three bytes at a time. *)
Lemma triples_ind (A : Type) (P : list A -> Prop) :
  P [] ->
  (forall a, P [a]) ->
  (forall a b, P [a; b]) ->
  (forall a b c rest, P rest -> P (a :: b :: c :: rest)) ->
  forall l, P l.
Proof.
  intros H0 H1 H2 H3 l.
  assert (H : forall n l, (length l <= n)%nat -> P l).
  { clear l. induction n as [|n IH]; intros l Hl.
    - destruct l; [assumption | simpl in Hl; lia].
    - destruct l as [|a [|b [|c rest]]]; auto.
      apply H3, IH. simpl in Hl. lia. }
  apply (H (length l)). lia.
Qed.

Lemma to_N_lt (b : byte) : Byte.to_N b < 256.
Proof. pose proof (Byte.to_N_bounded b). lia. Qed.

Lemma Uint8_to_N (b : byte) : Uint8 (Byte.to_N b) = b.
Proof.
  unfold Uint8. rewrite N.mod_small by apply to_N_lt.
  now rewrite Byte.of_to_N.
Qed.

Lemma b64_value_char (v : N) : v < 64 -> b64_value (b64_char v) = Some v.
Proof.
  intros Hv. unfold b64_char.
  destruct (N.ltb_spec v 26).
  { unfold b64_value.
    replace ((65 <=? 65 + v) && (65 + v <=? 90)) with true
      by (symmetry; apply andb_true_iff; split; apply N.leb_le; lia).
    f_equal. lia. }
  destruct (N.ltb_spec v 52).
  { unfold b64_value.
    replace ((65 <=? 97 + (v - 26)) && (97 + (v - 26) <=? 90)) with false
      by (symmetry; apply andb_false_iff; right; apply N.leb_gt; lia).
    replace ((97 <=? 97 + (v - 26)) && (97 + (v - 26) <=? 122)) with true
      by (symmetry; apply andb_true_iff; split; apply N.leb_le; lia).
    f_equal. lia. }
  destruct (N.ltb_spec v 62).
  { unfold b64_value.
    replace ((65 <=? 48 + (v - 52)) && (48 + (v - 52) <=? 90)) with false
      by (symmetry; apply andb_false_iff; left; apply N.leb_gt; lia).
    replace ((97 <=? 48 + (v - 52)) && (48 + (v - 52) <=? 122)) with false
      by (symmetry; apply andb_false_iff; left; apply N.leb_gt; lia).
    replace ((48 <=? 48 + (v - 52)) && (48 + (v - 52) <=? 57)) with true
      by (symmetry; apply andb_true_iff; split; apply N.leb_le; lia).
    f_equal. lia. }
  destruct (N.eqb_spec v 62) as [->|Hne]; [reflexivity|].
  assert (v = 63) as -> by lia. reflexivity.
Qed.

(** A character of the alphabet is neither padding, nor a comma, nor
    white space. *)
Lemma b64_char_class (v : N) :
  (b64_char v =? pad_char) = false
  /\ (b64_char v =? comma) = false
  /\ ascii_whitespace (b64_char v) = false.
Proof.
  unfold b64_char, ascii_whitespace, pad_char, comma.
  destruct (N.ltb_spec v 26); [|destruct (N.ltb_spec v 52);
    [|destruct (N.ltb_spec v 62); [|destruct (N.eqb_spec v 62)]]];
    repeat split;
    repeat (apply orb_false_iff; split); apply N.eqb_neq; lia.
Qed.

Lemma sextets_lt (bs : list byte) : Forall (fun v => v < 64) (sextets bs).
Proof.
  induction bs as [|a|a b|a b c rest IH] using triples_ind; simpl;
    repeat constructor; try assumption;
    pose proof (to_N_lt a); try pose proof (to_N_lt b);
    try pose proof (to_N_lt c); divlia.
Qed.

Lemma b64_values_chars (vs : list N) :
  Forall (fun v => v < 64) vs -> b64_values (map b64_char vs) = Some vs.
Proof.
  induction 1 as [|v vs Hv _ IH]; simpl; [reflexivity|].
  now rewrite b64_value_char, IH.
Qed.

(** Decoding the groups of a byte sequence gives its bytes back. *)
Lemma octets_sextets (bs : list byte) : octets (sextets bs) = map Byte.to_N bs.
Proof.
  induction bs as [|a|a b|a b c rest IH] using triples_ind; simpl.
  - reflexivity.
  - pose proof (to_N_lt a). f_equal. divlia.
  - pose proof (to_N_lt a). pose proof (to_N_lt b).
    f_equal; [|f_equal]; divlia.
  - pose proof (to_N_lt a). pose proof (to_N_lt b). pose proof (to_N_lt c).
    rewrite IH. f_equal; [|f_equal; [|f_equal]]; divlia.
Qed.

End Codec.

Section RoundTrip.

Lemma padding_step (n : nat) : padding (S (S (S n))) = padding n.
Proof.
  unfold padding.
  replace (S (S (S n)) mod 3)%nat with (n mod 3)%nat; [reflexivity|].
  change (S (S (S n))) with (3 + n)%nat. divlia.
Qed.

(** The text is a whole number of groups of four, and the characters
    before the padding never number one more than a multiple of four. *)
Lemma encoded_length (bs : list byte) :
  ((length (sextets bs) + length (padding (length bs))) mod 4 = 0
   /\ length (sextets bs) mod 4 <> 1)%nat.
Proof.
  induction bs as [|a|a b|a b c rest [IH1 IH2]] using triples_ind;
    try (cbn; split; [reflexivity | discriminate]).
  change (length (a :: b :: c :: rest)) with (S (S (S (length rest)))).
  rewrite padding_step.
  change (length (sextets (a :: b :: c :: rest)))
    with (4 + length (sextets rest))%nat.
  split; [revert IH1 | revert IH2];
    generalize (length (sextets rest)) (length (padding (length rest)));
    intros; divlia.
Qed.

Lemma padding_cases (n : nat) :
  padding n = [] \/ padding n = [pad_char] \/ padding n = [pad_char; pad_char].
Proof.
  unfold padding. destruct (n mod 3)%nat as [|[|[|?]]]; auto.
Qed.

(** [atob] strips exactly the padding the encoder appended. *)
Lemma strip_padding_encoded (vs : list N) (pad : jsstring) :
  (length (map b64_char vs ++ pad) mod 4 = 0)%nat ->
  pad = [] \/ pad = [pad_char] \/ pad = [pad_char; pad_char] ->
  vs <> [] ->
  strip_padding (map b64_char vs ++ pad) = map b64_char vs.
Proof.
  intros Hlen Hpad Hvs. unfold strip_padding.
  rewrite (proj2 (Nat.eqb_eq _ _) Hlen).
  destruct (exists_last Hvs) as (vs' & v & ->).
  rewrite map_app. simpl map.
  destruct (b64_char_class v) as (Hv & _ & _).
  destruct Hpad as [-> | [-> | ->]].
  - rewrite app_nil_r, rev_unit.
    destruct (rev (map b64_char vs')); [reflexivity | now rewrite Hv].
  - rewrite rev_unit, rev_unit. rewrite N.eqb_refl, Hv.
    change (b64_char v :: rev (map b64_char vs'))
      with (rev [b64_char v] ++ rev (map b64_char vs')).
    now rewrite <- rev_app_distr, rev_involutive.
  - change [pad_char; pad_char] with ([pad_char] ++ [pad_char]).
    rewrite (app_assoc _ [pad_char] [pad_char]), rev_unit, rev_unit.
    rewrite !N.eqb_refl. apply rev_involutive.
Qed.

(** The encoder emits no white space. *)
Lemma encoded_no_whitespace (bs : list byte) :
  List.filter (fun c => negb (ascii_whitespace c)) (base64_encode bs)
  = base64_encode bs.
Proof.
  unfold base64_encode. rewrite List.filter_app. f_equal.
  - induction (sextets bs) as [|v vs IH]; [reflexivity|].
    destruct (b64_char_class v) as (_ & _ & Hw).
    cbn [map List.filter]. now rewrite Hw, IH.
  - destruct (padding_cases (length bs)) as [-> | [-> | ->]]; reflexivity.
Qed.

(** [atob] inverts the encoder. *)
Lemma atob_encoded (bs : list byte) :
  atob (JStr (base64_encode bs)) = inr (map Byte.to_N bs).
Proof.
  unfold atob. cbn [ToString]. rewrite encoded_no_whitespace.
  destruct bs as [|b bs']; [reflexivity|].
  set (bs := b :: bs').
  destruct (encoded_length bs) as [Hlen Hbody].
  assert (Hne : sextets bs <> []) by (subst bs; destruct bs' as [|? [|? ?]]; discriminate).
  unfold base64_encode.
  rewrite strip_padding_encoded.
  - rewrite length_map.
    destruct (Nat.eqb_spec (length (sextets bs) mod 4) 1); [contradiction|].
    rewrite b64_values_chars by apply sextets_lt.
    now rewrite octets_sextets.
  - now rewrite length_app, length_map.
  - apply padding_cases.
  - assumption.
Qed.

(** The slicing loop loses nothing and keeps the order: its slices,
    concatenated, are the bytes of the whole string from [offset] on. *)
Lemma slice_loop_concat (chunkSize : nat) (byteCharacters : jsstring) :
  (0 < chunkSize)%nat ->
  forall fuel offset,
    (length byteCharacters <= offset + fuel)%nat ->
    concat (slice_loop fuel chunkSize offset byteCharacters)
    = map Uint8 (drop offset byteCharacters).
Proof.
  intros Hpos. induction fuel as [|fuel IH]; intros offset Hlen; simpl.
  - rewrite drop_ge by lia. reflexivity.
  - destruct (Nat.ltb_spec offset (length byteCharacters)).
    + simpl. rewrite IH by lia.
      rewrite <- map_app. f_equal.
      rewrite <- drop_drop. apply take_drop.
    + rewrite drop_ge by lia. reflexivity.
Qed.

(** [base64ToBlob] on the text of a byte sequence yields these bytes. *)
Lemma base64ToBlob_encoded (bs : list byte) (mimeType : string) :
  base64ToBlob (JStr (base64_encode bs)) mimeType = inr (mkBlob bs mimeType).
Proof.
  unfold base64ToBlob. rewrite atob_encoded.
  rewrite slice_loop_concat by (cbn; lia).
  rewrite drop_0, map_map.
  do 2 f_equal.
  induction bs as [|b bs IH]; [reflexivity|].
  cbn [map]. now rewrite Uint8_to_N, IH.
Qed.

(** Whatever [base64ToBlob] throws is a plain [Error]. *)
Lemma base64ToBlob_error_name (base64 : jsval) (mimeType : string) (e : JsError) :
  base64ToBlob base64 mimeType = inl e -> err_name e = "Error"%string.
Proof.
  unfold base64ToBlob. destruct (atob base64); [|discriminate].
  now intros [= <-].
Qed.

(** [split] at the only occurrence of the separator. *)
Lemma split_on_once (sep : N) (pre post : jsstring) :
  Forall (fun c => c <> sep) pre ->
  Forall (fun c => c <> sep) post ->
  split_on sep (pre ++ sep :: post) = [pre; post].
Proof.
  intros Hpre Hpost.
  assert (Hp : split_on sep post = [post]).
  { clear Hpre. induction Hpost as [|c post Hc _ IH]; [reflexivity|].
    simpl. rewrite (proj2 (N.eqb_neq c sep) Hc), IH. reflexivity. }
  induction Hpre as [|c pre Hc _ IH]; simpl.
  - now rewrite N.eqb_refl, Hp.
  - now rewrite (proj2 (N.eqb_neq c sep) Hc), IH.
Qed.

Lemma encoded_no_comma (bs : list byte) :
  Forall (fun c => c <> comma) (base64_encode bs).
Proof.
  unfold base64_encode. apply Forall_app. split.
  - apply Forall_forall. intros c Hc.
    apply list_elem_of_In, in_map_iff in Hc. destruct Hc as (v & <- & _).
    destruct (b64_char_class v) as (_ & Hc & _). now apply N.eqb_neq.
  - destruct (padding_cases (length bs)) as [-> | [-> | ->]];
      repeat constructor; discriminate.
Qed.

(** Absence of a separator, checked by computation. *)
Lemma no_sep_check (sep : N) (s : jsstring) :
  forallb (fun c => negb (c =? sep)) s = true -> Forall (fun c => c <> sep) s.
Proof.
  intros H. apply Forall_forall. intros c Hc.
  apply list_elem_of_In in Hc.
  apply (proj1 (forallb_forall _ _) H) in Hc.
  apply N.eqb_neq. now destruct (c =? sep).
Qed.

(** [fileToBase64] resolves with the base64 text of the file. *)
Lemma fileToBase64_text (file : File) :
  Forall (fun c => c <> comma) (file_type file) ->
  fileToBase64 file = inr (JStr (base64_encode (file_bytes file))).
Proof.
  intros Htype. unfold fileToBase64, fileToBase64_settle, readAsDataURL.
  set (t := match file_type file with [] => _ | _ => _ end).
  assert (Ht : Forall (fun c => c <> comma) t).
  { subst t. destruct (file_type file); [|assumption].
    now apply no_sep_check. }
  clearbody t.
  change (js ";base64,") with (js ";base64" ++ [comma]).
  rewrite <- (app_assoc (js ";base64")), !app_assoc.
  rewrite <- (app_assoc _ [comma]).
  change ([comma] ++ base64_encode (file_bytes file))
    with (comma :: base64_encode (file_bytes file)).
  rewrite split_on_once; [reflexivity| |apply encoded_no_comma].
  apply Forall_app; split; [apply Forall_app; split|];
    try assumption; now apply no_sep_check.
Qed.

(** The reader of [fileToBase64Chunked] delivers the same text. *)
Lemma fileToBase64Chunked_same (file : File) :
  fileToBase64Chunked file = fileToBase64 file.
Proof.
  unfold fileToBase64Chunked.
  destruct (file_size file <? 1024 * 1024)%Z; reflexivity.
Qed.

End RoundTrip.

(** C1. For every payload of more than 0 and at most 50 MiB bytes, in a
    file whose MIME type holds no comma, [fileToBase64] resolves with a
    text from which [base64ToBlob] rebuilds a blob of exactly the bytes of
    the payload, in their order. *)
Theorem base64_round_trip (x : File) (mimeType : string) :
  Forall (fun c => c <> comma) (file_type x) ->
  (0 < file_size x <= 50 * 1024 * 1024)%Z ->
  exists text,
    fileToBase64 x = inr text
    /\ base64ToBlob text mimeType = inr (mkBlob (file_bytes x) mimeType).
Proof.
  intros Htype _. exists (JStr (base64_encode (file_bytes x))). split.
  - now apply fileToBase64_text.
  - apply base64ToBlob_encoded.
Qed.

Lemma base64_round_trip_witness :
  let x := mkFile (js "note.txt") (js "text/plain") [x48; x69; x21; x0a] in
  exists text,
    fileToBase64 x = inr text
    /\ base64ToBlob text "text/plain" = inr (mkBlob (file_bytes x) "text/plain").
Proof.
  intros x. apply (base64_round_trip x "text/plain").
  - now apply no_sep_check.
  - cbv. split; [reflexivity | discriminate].
Defined.

(** ** ResourceTracker *)

Section Tracker.

Lemma revoke_unknown (url : nat) (s : App) :
  url ∉ objectURLs s -> revokeTrackedObjectURL url s = s.
Proof.
  intros Hurl. unfold revokeTrackedObjectURL.
  destruct (decide (url ∈ objectURLs s)); [contradiction | reflexivity].
Qed.

Lemma revoke_untracks (url : nat) (s : App) :
  url ∉ objectURLs (revokeTrackedObjectURL url s).
Proof.
  unfold revokeTrackedObjectURL.
  destruct (decide (url ∈ objectURLs s)); [|assumption].
  cbn. apply not_elem_of_difference. right. now apply elem_of_singleton.
Qed.

Lemma revoke_twice (url : nat) (s : App) :
  revokeTrackedObjectURL url (revokeTrackedObjectURL url s)
  = revokeTrackedObjectURL url s.
Proof. apply revoke_unknown, revoke_untracks. Qed.

(** Revoking one URL leaves the other tracked URLs tracked. *)
Lemma revoke_others (url other : nat) (s : App) :
  other <> url ->
  (other ∈ objectURLs (revokeTrackedObjectURL url s) <-> other ∈ objectURLs s).
Proof.
  intros Hne. unfold revokeTrackedObjectURL.
  destruct (decide (url ∈ objectURLs s)); [|reflexivity].
  cbn. rewrite elem_of_difference, elem_of_singleton. tauto.
Qed.

Lemma foldr_revoke_objectURLs (urls : list nat) (s : App) :
  objectURLs (foldr revokeObjectURL s urls) = objectURLs s.
Proof. induction urls as [|u urls IH]; [reflexivity | exact IH]. Qed.

Lemma foldr_revoke_blobStore (urls : list nat) (s : App) (url : nat) :
  url ∈ urls -> blobStore (foldr revokeObjectURL s urls) !! url = None.
Proof.
  induction urls as [|u urls IH]; intros Hin.
  - inversion Hin.
  - cbn. destruct (decide (u = url)) as [->|Hne].
    + apply lookup_delete_eq.
    + rewrite lookup_delete_ne by assumption.
      apply IH. apply elem_of_cons in Hin as [Heq|Hin]; [congruence | assumption].
Qed.

Lemma cleanup_empties (s : App) : objectURLs (cleanupObjectURLs s) = ∅.
Proof. reflexivity. Qed.

(** Every URL that was tracked has left the blob URL store. *)
Lemma cleanup_revokes (s : App) (url : nat) :
  url ∈ objectURLs s -> blobStore (cleanupObjectURLs s) !! url = None.
Proof.
  intros Hin. unfold cleanupObjectURLs. cbn.
  apply foldr_revoke_blobStore. now apply elem_of_elements.
Qed.

End Tracker.

(** C8. Revoking a URL that is not tracked (never tracked, or revoked
    before) returns the state as it was; revoking twice is revoking once;
    and after [cleanupObjectURLs] no URL is tracked. Both methods are total
    functions of the state: they have no throwing path. *)
Theorem release_is_idempotent (s : App) (url : nat) :
  (url ∉ objectURLs s -> revokeTrackedObjectURL url s = s)
  /\ revokeTrackedObjectURL url (revokeTrackedObjectURL url s)
     = revokeTrackedObjectURL url s
  /\ objectURLs (cleanupObjectURLs s) = ∅
  /\ objectURLs (cleanup s) = ∅.
Proof.
  split; [apply revoke_unknown|].
  split; [apply revoke_twice|].
  split; reflexivity.
Qed.

Lemma release_is_idempotent_witness :
  let s := set_objectURLs {[1%nat]} (new_StegoProApp (mkStorage None None None) false) in
  (2%nat ∉ objectURLs s) /\ revokeTrackedObjectURL 2 s = s.
Proof.
  intros s.
  assert (H : 2%nat ∉ objectURLs s)
    by (subst s; cbn; intros Hin; apply elem_of_singleton in Hin; discriminate Hin).
  split; [exact H|].
  exact (proj1 (release_is_idempotent s 2) H).
Defined.

(** ** Filename sanitiser *)

Section Sanitiser.

Lemma trim_start_suffix (s : jsstring) : exists pre, s = pre ++ trim_start s.
Proof.
  induction s as [|c s [pre IH]]; [now exists []|].
  simpl. destruct (js_whitespace c).
  - exists (c :: pre). simpl. now f_equal.
  - now exists [].
Qed.

Lemma strip_leading_dots_suffix (s : jsstring) :
  exists pre, s = pre ++ strip_leading_dots s.
Proof.
  induction s as [|c s [pre IH]]; [now exists []|].
  simpl. destruct (c =? 46).
  - exists (c :: pre). simpl. now f_equal.
  - now exists [].
Qed.

(** [trim] keeps a contiguous part of the string. *)
Lemma trim_infix (s : jsstring) : exists pre post, s = pre ++ trim s ++ post.
Proof.
  unfold trim.
  destruct (trim_start_suffix s) as [pre Hpre].
  destruct (trim_start_suffix (rev (trim_start s))) as [post Hpost].
  exists pre, (rev post).
  rewrite <- rev_app_distr, <- Hpost, rev_involutive. exact Hpre.
Qed.

Lemma trim_length (s : jsstring) : (length (trim s) <= length s)%nat.
Proof.
  destruct (trim_infix s) as (pre & post & H).
  rewrite H at 2. rewrite !length_app. lia.
Qed.

Lemma trim_Forall (P : N -> Prop) (s : jsstring) : Forall P s -> Forall P (trim s).
Proof.
  intros H. destruct (trim_infix s) as (pre & post & E).
  rewrite E in H. apply Forall_app in H as [_ H].
  now apply Forall_app in H as [H _].
Qed.

(** The sanitised name is at most 255 code units long. *)
Lemma sanitizeFilename_length (filename : jsstring) :
  (length (sanitizeFilename filename) <= 255)%nat.
Proof.
  unfold sanitizeFilename. destruct filename as [|c rest]; [cbn; lia|].
  etransitivity; [apply trim_length|].
  rewrite length_take. lia.
Qed.

(** No character of the class of the first [replace] is left: none of
    < > : | ? * and the double quote, and no code unit below 0x20. *)
Lemma sanitizeFilename_class (filename : jsstring) :
  Forall (fun c => dangerous_char c = false) (sanitizeFilename filename).
Proof.
  unfold sanitizeFilename. destruct filename as [|c0 rest]; [constructor|].
  apply trim_Forall, Forall_take.
  set (l := List.filter _ _).
  destruct (strip_leading_dots_suffix l) as [pre E].
  assert (H : Forall (fun c => dangerous_char c = false) l).
  { subst l. apply Forall_forall. intros c Hc.
    apply list_elem_of_In, filter_In in Hc. destruct Hc as [_ Hc].
    now apply negb_true_iff. }
  rewrite E in H. now apply Forall_app in H as [_ H].
Qed.

End Sanitiser.

(** C9. The sanitiser leaves the path separators in place: a name with a
    backslash comes back unchanged and [processFile] takes the file; so
    does a name with a slash. It also keeps DEL, which is a control
    character. *)
Theorem sanitizeFilename_keeps_path_separators :
  let name := js "up\dir.png" in
  sanitizeFilename name = name
  /\ existsb path_separator (sanitizeFilename name) = true
  /\ sanitizeFilename (js "up/dir.png") = js "up/dir.png"
  /\ existsb control_char (sanitizeFilename [97; 127; 98]) = true
  /\ forall s,
       containerFile (processFile (mkFile name (js "image/png") [x00]) SlotContainer s)
       = Some (mkFile name (js "image/png") [x00]).
Proof.
  repeat split; try reflexivity.
Qed.

(** ** UsageGate *)

Section Gate.

(** A start method leaves through the login prompt exactly when the
    guard at its head fires. *)
Lemma start_quota (kind : OpKind) (password : string) (s : App) :
  snd (start kind password s) = QuotaExceeded <-> quota_reached (limit kind) s = true.
Proof.
  destruct kind; cbn [start limit]; unfold startHiding, startExtracting.
  - destruct (quota_reached HIDE_LIMIT s); [easy|].
    destruct (containerFile s), (dataFile s), (currentMethod s); easy.
  - destruct (quota_reached EXTRACT_LIMIT s); [easy|].
    destruct (extractFile s); easy.
Qed.

Lemma start_denied (kind : OpKind) (password : string) (s : App) :
  quota_reached (limit kind) s = true ->
  start kind password s = (showLoginPrompt s, QuotaExceeded).
Proof.
  intros H. destruct kind; cbn [start limit] in *;
    unfold startHiding, startExtracting; now rewrite H.
Qed.

Lemma quota_reached_spec (l : Z) (s : App) :
  quota_reached l s = true
  <-> isUserLoggedIn s = false /\ (l <= anonOperationCount s)%Z.
Proof.
  unfold quota_reached. rewrite andb_true_iff, negb_true_iff, Z.leb_le.
  reflexivity.
Qed.

End Gate.

(** The gate in terms of what the program itself tests,
    [isUserLoggedIn()]: a start method never stops a session whose avatar
    is shown, whatever the kind; it lets any other session pass exactly
    when the anonymous counter is below the limit of the kind, 10 for Hide
    and 2 for Extract, which are different constants. *)
Lemma usage_gate_permits (kind : OpKind) (password : string) (s : App) :
  (isUserLoggedIn s = true -> snd (start kind password s) <> QuotaExceeded)
  /\ (isUserLoggedIn s = false ->
      (snd (start kind password s) <> QuotaExceeded
       <-> (anonOperationCount s < limit kind)%Z))
  /\ limit Hide = 10%Z /\ limit Extract = 2%Z /\ limit Hide <> limit Extract.
Proof.
  rewrite start_quota, quota_reached_spec.
  repeat split; try reflexivity; try discriminate.
  - intros Hin [Hout _]. congruence.
  - intros Hq. destruct (Z.lt_ge_cases (anonOperationCount s) (limit kind)); tauto.
  - intros Hlt [_ Hge]. lia.
Qed.

Lemma usage_gate_permits_witness :
  let s := set_anonOperationCount 2 (new_StegoProApp (mkStorage None None None) false) in
  isUserLoggedIn s = false
  /\ snd (start Hide "" s) <> QuotaExceeded
  /\ ~ snd (start Extract "" s) <> QuotaExceeded.
Proof.
  intros s. split; [reflexivity|]. split.
  - apply (proj1 (proj2 (usage_gate_permits Hide "" s)) eq_refl). reflexivity.
  - intros H.
    apply (proj1 (proj2 (usage_gate_permits Extract "" s)) eq_refl) in H.
    vm_compute in H. discriminate H.
Defined.

(** C4. An authenticated session is not always let through: the gate
    asks [isUserLoggedIn()], which looks at the avatar, and
    [loadGoogleUser] hides the avatar of a logged-in profile that has no
    picture. After such a profile has arrived, two extractions succeed
    and are counted, and the third start is stopped at the gate with the
    login prompt. *)
Theorem authenticated_session_is_gated :
  let s := run (EvUserLoaded (Some profile_without_picture)
                :: one_extract 0 ++ one_extract 1) first_visit in
  logged_in profile_without_picture = true
  /\ isUserLoggedIn s = false
  /\ anonOperationCount s = 2%Z
  /\ snd (start Extract "pw" s) = QuotaExceeded
  /\ loginPrompt (fst (start Extract "pw" s)) = true.
Proof. repeat split; vm_compute; reflexivity. Qed.

(** C5. When an anonymous session has reached the limit of the kind, the
    start method only shows the login prompt: no request is handed to the
    network, no operation is suspended, no controller is made, the tracked
    URLs, the blob URL store, the anonymous counter, the stats, the
    achievements and the local storage are what they were. *)
Theorem quota_denial_is_inert (kind : OpKind) (password : string) (s : App) :
  isUserLoggedIn s = false ->
  (limit kind <= anonOperationCount s)%Z ->
  let s' := fst (start kind password s) in
  snd (start kind password s) = QuotaExceeded
  /\ s' = showLoginPrompt s
  /\ requests s' = requests s
  /\ inflight s' = inflight s
  /\ currentOperationController s' = currentOperationController s
  /\ nextController s' = nextController s
  /\ objectURLs s' = objectURLs s
  /\ blobStore s' = blobStore s
  /\ anonOperationCount s' = anonOperationCount s
  /\ stats s' = stats s
  /\ achievements s' = achievements s
  /\ toasts s' = toasts s
  /\ localStorage s' = localStorage s.
Proof.
  intros Hanon Hlimit s'. subst s'.
  rewrite start_denied by (apply quota_reached_spec; auto).
  cbn [fst snd]. unfold showLoginPrompt.
  destruct (loginPrompt s); repeat split.
Qed.

Lemma quota_denial_is_inert_witness :
  let s := set_anonOperationCount 10 (new_StegoProApp (mkStorage None None None) false) in
  snd (start Hide "" s) = QuotaExceeded /\ requests (fst (start Hide "" s)) = requests s.
Proof.
  intros s.
  assert (H1 : isUserLoggedIn s = false) by reflexivity.
  assert (H2 : (limit Hide <= anonOperationCount s)%Z) by (vm_compute; discriminate).
  pose proof (quota_denial_is_inert Hide "" s H1 H2) as H.
  split; [apply H | apply H].
Defined.

(** ** StatsLedger *)

#[local] Arguments checkAchievements : simpl never.
#[local] Arguments base64ToBlob : simpl never.
#[local] Arguments sanitizeFilename : simpl never.
#[local] Arguments dot_extension : simpl never.

Section Ledger.

(** Showing and recording achievements touches the achievements and the
    toasts only. *)
Lemma record_new_shape (new : list Achievement) (s : App) :
  fold_left
    (fun s a => showAchievement a (set_achievements (achievements s ++ [a]) s))
    new s
  = set_toasts
      (rev (map (fun a => mkToast "Достижение разблокировано!"
                            (ach_name a +:+ ": " +:+ ach_description a) "success")
              new) ++ toasts s)
      (set_achievements (achievements s ++ new) s).
Proof.
  revert s. induction new as [|a new IH]; intros s.
  - cbn. rewrite app_nil_r. now destruct s.
  - cbn [fold_left]. rewrite IH. cbn [map rev].
    unfold showAchievement, showToast. cbn.
    rewrite <- !app_assoc. reflexivity.
Qed.

(** [checkAchievements] changes the achievements, the toasts, the local
    storage and the requests, and nothing else. *)
Lemma checkAchievements_shape (s : App) :
  exists t l r,
    checkAchievements s
    = set_requests r
        (set_localStorage l
           (set_toasts t
              (set_achievements (achievements s ++ newAchievements s) s))).
Proof.
  unfold checkAchievements. rewrite record_new_shape.
  generalize (newAchievements s) as new. intros new.
  destruct s, new as [|a new]; eexists _, _, _.
  - rewrite app_nil_r. cbn. reflexivity.
  - unfold saveStatsToCloud, saveAchievements. cbn. reflexivity.
Qed.




End Ledger.

(** In a goal, every [checkAchievements x] is replaced by its shape. *)
Ltac ledger_shape :=
  repeat match goal with
         | |- context [checkAchievements ?x] =>
             let t := fresh "t" in
             let l := fresh "l" in
             let r := fresh "r" in
             let E := fresh "E" in
             destruct (checkAchievements_shape x) as (t & l & r & E);
             rewrite E; clear E
         end.

(** The definitions of the operation life cycle, unfolded. *)
Ltac unfold_operation :=
  unfold files_read, settled, finish, on_success, on_error, showResults,
    send_request, fetch, read_file, bind, lift, get, act, ret, deref, throw,
    isUserLoggedIn in *.

(** Case analysis on everything the continuation of an operation looks
    at. *)
Ltac operation_cases :=
  unfold_operation; cbn;
  repeat (ledger_shape; cbn;
          match goal with
          | |- context [find_pending ?c ?st ?s] => destruct (find_pending c st s)
          | |- context [match ?r with inl _ => _ | inr _ => _ end] =>
              is_var r; destruct r
          | |- context [if ?b then _ else _] => is_var b; destruct b
          | |- context [p_args ?p] => destruct (p_args p)
          | |- context [fileToBase64Chunked ?f] => destruct (fileToBase64Chunked f)
          | |- context [decide ?P] => destruct (decide P)
          | |- context [read_response ?a ?o] => destruct (read_response a o)
          | |- context [containerFile ?s] => destruct (containerFile s)
          | |- context [dataFile ?s] => destruct (dataFile s)
          | |- context [base64ToBlob ?a ?b] =>
              let H := fresh in
              destruct (base64ToBlob a b) as [[? ?]|?] eqn:H;
              [apply base64ToBlob_error_name in H; cbn in H; subst | clear H]
          | |- context [navAvatarVisible ?s] => destruct (navAvatarVisible s)
          | |- context [String.eqb ?a ?b] => destruct (String.eqb a b)
          end; cbn).

(** Case analysis on the guards of the user actions. *)
Ltac action_cases :=
  unfold startHiding, startExtracting, newController, cancelOperation,
    processFile, removeFile, set_slot, selectMethod, showHideInterface,
    revokeTrackedObjectURL, showProfile, loadGoogleUser, userLoaded,
    logoutGoogle, showLoginPrompt, showToast, saveStats, saveAchievements,
    store_anon_ops, revokeObjectURL;
  cbn;
  repeat (match goal with
          | |- context [if ?c then _ else _] => destruct c
          | |- context [match ?x with Some _ => _ | None => _ end] => destruct x
          | |- context [match ?x with [] => _ | _ :: _ => _ end] => destruct x
          | |- context [match ?x with (_, _) => _ end] => destruct x
          | |- context [match ?x with
                        | SlotContainer => _ | SlotData => _ | SlotExtract => _
                        end] => destruct x
          end; cbn).

Section Lifecycle.

(** The anonymous counter across the end of an operation. *)
Lemma finish_anon (p : Pending) (r : JsError + ServiceResult) (s : App) :
  anonOperationCount (fst (finish p r s))
  = (anonOperationCount s
     + if succeeded (Some (snd (finish p r s))) && negb (isUserLoggedIn s)
       then 1 else 0)%Z.
Proof. operation_cases; lia. Qed.

End Lifecycle.

(** The anonymous counter across every event, in terms of what the
    program itself tests: it goes up by exactly one when the [try] block
    of a start method runs to its end while [isUserLoggedIn()] is false;
    it is set to 0 when the profile of a logged-in user arrives; otherwise
    it keeps its value, in particular when an operation ends failed. *)
Lemma anon_counter_moves (e : Event) (s : App) :
  anonOperationCount (step e s)
  = match e with
    | EvUserLoaded (Some u) =>
        if logged_in u then 0%Z else anonOperationCount s
    | _ =>
        (anonOperationCount s
         + if succeeded (outcome_of e s) && negb (isUserLoggedIn s) then 1 else 0)%Z
    end.
Proof.
  destruct e; cbn [step outcome_of succeeded].
  7, 8: operation_cases; lia.
  all: action_cases; lia.
Qed.

(** C6. The counter of the anonymous operations is raised for an
    authenticated session: after the profile of a logged-in user without
    picture has arrived, which sets the counter to 0, an extraction that
    succeeds raises it to 1 and stores it. And a result that was
    delivered is not always counted: an anonymous hide whose data file is
    removed while the exchange is under way shows its result and leaves
    the counter at 0. *)
Theorem authenticated_session_is_counted :
  let s := run [EvUserLoaded (Some profile_without_picture)] first_visit in
  let s' := run (one_extract 0) s in
  let t := run (pick_and_hide ++ [EvFilesRead 0 true; EvRemoveFile SlotData])
             first_visit in
  let t' := step (EvSettled 0 positive_answer) t in
  logged_in profile_without_picture = true
  /\ anonOperationCount s = 0%Z
  /\ anonOperationCount s' = 1%Z
  /\ stegopro_anon_ops (localStorage s') = Some 1%Z
  /\ resultsContent t' = [0%nat]
  /\ anonOperationCount t' = 0%Z.
Proof. repeat split; vm_compute; reflexivity. Qed.

Section Success.

(** An exchange ends with success only on a positive answer of the
    service under a signal that was not aborted. *)
Lemma success_needs_positive_answer (c : nat) (o : FetchOutcome) (s : App) :
  snd (settled c o s) = Some Succeeded ->
  (c ∉ aborted s)
  /\ exists status result,
       o = HttpResponse true status (Some result) /\ res_success result = true.
Proof.
  unfold settled. destruct (find_pending c Fetching s) as [p|]; [|discriminate].
  unfold read_response.
  destruct (bool_decide (c ∈ aborted s)) eqn:Hab.
  { cbn. unfold finish, on_error, bind, lift. cbn. discriminate. }
  apply bool_decide_eq_false in Hab. intros H. split; [assumption|].
  destruct o as [|[|] status [result|]];
    try (revert H; cbn; unfold finish, on_error, bind, lift; cbn; discriminate).
  destruct (res_success result) eqn:Hs;
    [eauto | revert H; cbn; unfold finish, on_error, bind, lift; cbn;
             discriminate].
Qed.

(** The readers alone never end an operation with success. *)
Lemma files_read_never_succeeds (c : nat) (loaded : bool) (s : App) :
  snd (files_read c loaded s) <> Some Succeeded.
Proof. operation_cases; discriminate. Qed.

(** The [catch] of the start methods never sees the name [AbortError]:
    [hideData] and [extractData] have thrown a [new Error] in its place,
    so no operation ends as [Cancelled]. *)
Lemma abort_branch_unreachable (e : Event) (s : App) :
  outcome_of e s <> Some Cancelled.
Proof.
  destruct e; cbn [outcome_of]; try discriminate.
  - operation_cases; discriminate.
  - unfold settled. destruct (find_pending _ _ _); [|discriminate].
    destruct (read_response _ _); cbn; operation_cases; discriminate.
Qed.

End Success.

(** ** Stats *)

Section StatsMonotone.

Lemma stats_le_refl (st : Stats) : stats_le st st.
Proof. unfold stats_le. lia. Qed.

Lemma file_size_nonneg (f : File) : (0 <= file_size f)%Z.
Proof. unfold file_size. lia. Qed.

(** [updateStatsAfterOperation] lowers no field when the size is not
    negative. *)
Lemma updateStats_le (kind : OpKind) (dataSize : Z) (s : App) :
  (0 <= dataSize)%Z ->
  stats_le (stats s) (stats (updateStatsAfterOperation kind dataSize s)).
Proof. intros H. destruct kind; cbn; unfold stats_le; cbn; lia. Qed.

End StatsMonotone.





(** ** Achievements *)

#[local] Arguments newAchievements : simpl never.

Section FirstFile.



End FirstFile.




(** ** Cancellation and overlapping operations *)

Section Suspended.

(** Once an operation has ended, nothing suspended carries its signal. *)
Lemma removed_all (c : nat) (l : list Pending) :
  Forall (fun q => p_signal q <> c)
    (List.filter (fun q => negb (Nat.eqb (p_signal q) c)) l).
Proof.
  apply Forall_forall. intros q Hq.
  apply list_elem_of_In, filter_In in Hq. destruct Hq as [_ Hq].
  apply negb_true_iff, Nat.eqb_neq in Hq. exact Hq.
Qed.

Lemma find_pending_signal (c : nat) (st : Stage) (s : App) (p : Pending) :
  find_pending c st s = Some p -> p_signal p = c /\ p_stage p = st.
Proof.
  unfold find_pending. intros H. apply find_some in H as [_ H].
  apply andb_true_iff in H as [Hc Hst]. apply Nat.eqb_eq in Hc.
  split; [assumption|]. destruct (p_stage p), st; congruence.
Qed.

End Suspended.

Section Cancel.

(** An operation [p] is suspended under the current controller. *)
Variables (s : App) (p : Pending).
Hypothesis Hcurrent : currentOperationController s = Some (p_signal p).
Hypothesis Hsuspended : find_pending (p_signal p) (p_stage p) s = Some p.

Lemma cancel_with_controller :
  cancelOperation s
  = set_resultsContent []
      (set_currentOperationController None
         (set_extractFile None
            (set_dataFile None
               (set_containerFile None
                  (set_currentOperationController None
                     (set_aborted ({[p_signal p]} ∪ aborted s) s)))))).
Proof. unfold cancelOperation. now rewrite Hcurrent. Qed.

(** Unfolds the event that resumes [p] after the cancellation, up to the
    point where the continuation of [p] runs. *)
Ltac resume_cancelled :=
  rewrite cancel_with_controller;
  unfold resume; unfold find_pending in Hsuspended;
  destruct (p_stage p) eqn:Hst; cbn [step outcome_of];
  unfold files_read, settled, find_pending;
  cbn [inflight set_resultsContent set_currentOperationController
         set_extractFile set_dataFile set_containerFile set_aborted aborted];
  rewrite Hsuspended;
  [ unfold_operation; cbn;
    destruct (p_args p); cbn;
    repeat match goal with
           | |- context [if ?b then _ else _] => is_var b; destruct b; cbn
           | |- context [fileToBase64Chunked ?f] =>
               destruct (fileToBase64Chunked f); cbn
           | |- context [decide ?P] =>
               destruct (decide P); [|exfalso; set_solver]; cbn
           end
  | rewrite bool_decide_eq_true_2 by set_solver;
    unfold_operation; cbn ].

(** C2 (as the program has it). An operation is suspended, reading or
    fetching, under the current controller, and [cancelOperation] runs.
    Then the signal is aborted, and when the operation resumes it ends
    without success: no controller is current, nothing suspended carries
    the signal, and the tracked URLs, the blob URL store, the anonymous
    counter, the stats, the achievements and the local storage are what
    they were before the cancellation; no request went out after it.
    (The tracked URLs of earlier results are kept, not released.) *)
Theorem cancelled_operation_changes_no_counter (loaded : bool) (o : FetchOutcome) :
  let e := resume p loaded o in
  let s1 := cancelOperation s in
  let s' := step e s1 in
  p_signal p ∈ aborted s1
  /\ is_Some (outcome_of e s1)
  /\ succeeded (outcome_of e s1) = false
  /\ currentOperationController s' = None
  /\ Forall (fun q => p_signal q <> p_signal p) (inflight s')
  /\ objectURLs s' = objectURLs s
  /\ blobStore s' = blobStore s
  /\ anonOperationCount s' = anonOperationCount s
  /\ stats s' = stats s
  /\ achievements s' = achievements s
  /\ localStorage s' = localStorage s
  /\ requests s' = requests s.
Proof.
  intros e s1 s'. subst e s1 s'.
  split; [rewrite cancel_with_controller; cbn; set_solver|].
  resume_cancelled; repeat split; eauto using removed_all.
Qed.

(** The slip in cancellation: the operation that was cancelled ends with
    the error toast of the [catch], because [hideData] and [extractData]
    have replaced the [AbortError] by a plain [Error]. *)
Lemma cancelled_operation_shows_error_toast (loaded : bool) (o : FetchOutcome) :
  exists t,
    toasts (step (resume p loaded o) (cancelOperation s)) = t :: toasts s
    /\ toast_title t = "Ошибка"%string /\ toast_type t = "error"%string.
Proof. resume_cancelled; eexists; repeat split. Qed.

End Cancel.

Lemma cancelled_operation_changes_no_counter_witness :
  let s := run (pick_and_hide ++ [EvFilesRead 0 true]) first_visit in
  let s' := step (EvSettled 0 positive_answer) (cancelOperation s) in
  anonOperationCount s' = anonOperationCount s /\ stats s' = stats s.
Proof.
  intros s s'.
  assert (Hp : exists p, find_pending 0 Fetching s = Some p) by (eexists; reflexivity).
  destruct Hp as [p Hp].
  destruct (find_pending_signal _ _ _ _ Hp) as [Hsig Hst].
  assert (Hc : currentOperationController s = Some (p_signal p))
    by (rewrite Hsig; reflexivity).
  rewrite <- Hsig, <- Hst in Hp.
  pose proof (cancelled_operation_changes_no_counter s p Hc Hp true positive_answer) as H.
  unfold resume in H. rewrite Hst, Hsig in H.
  split; apply H.
Defined.

(** C2, refuted as stated. After a first hide whose result is on the
    page, a second hide is cancelled while its exchange is under way. When
    it has ended, no controller is current and nothing is suspended, yet
    the URL of the first result is still tracked and still in the blob URL
    store, and the last toast is the error toast of the operation. *)
Lemma cancel_leaves_tracked_url :
  let s := run hide_then_cancelled_hide first_visit in
  currentOperationController s = None
  /\ inflight s = []
  /\ objectURLs s <> ∅
  /\ elements (objectURLs s) = [0%nat]
  /\ is_Some (blobStore s !! 0%nat)
  /\ (toast_type <$> head (toasts s)) = Some "error"%string.
Proof.
  intros s.
  assert (He : elements (objectURLs s) = [0%nat]) by (vm_compute; reflexivity).
  repeat split; try (vm_compute; reflexivity).
  - intros Hempty. rewrite Hempty, elements_empty in He. discriminate He.
  - vm_compute. eexists. reflexivity.
Qed.




(** ** Further facts about the session and the ledger *)

(** [isUserLoggedIn] reads the avatar: the profile of a logged-in user
    that has no picture hides the avatar, and the page treats the session
    as an anonymous one. *)
Lemma profile_without_picture_reads_anonymous (s : App) (user : UserInfo) :
  logged_in user = true -> has_picture user = false ->
  isUserLoggedIn (userLoaded (Some user) s) = false.
Proof.
  intros Hin Hpic. unfold userLoaded. rewrite Hin, Hpic.
  destruct (user_stats user) as [[st achs]|]; reflexivity.
Qed.

(** One anonymous hide that succeeds: the counter goes from 0 to 1, one
    file is processed, the size of the secret is added, the result is
    tracked and [first_file] is unlocked. *)
Lemma anonymous_hide_counts_once :
  let s := run (pick_and_hide ++ [EvFilesRead 0 true; EvSettled 0 positive_answer])
             first_visit in
  anonOperationCount s = 1%Z
  /\ stegopro_anon_ops (localStorage s) = Some 1%Z
  /\ stats s = mkStats 1 2 1
  /\ elements (objectURLs s) = [0%nat]
  /\ hasAchievement "first_file" s = true.
Proof. repeat split; vm_compute; reflexivity. Qed.

(** A hide of [n] bytes followed by an extract: two files processed, [n]
    bytes hidden, two successful operations. *)
Lemma hide_then_extract_stats (n : Z) (s : App) :
  stats s = mkStats 0 0 0 ->
  stats (updateStatsAfterOperation Extract 0 (updateStatsAfterOperation Hide n s))
  = mkStats 2 n 2.
Proof. intros H. cbn. rewrite H. reflexivity. Qed.

(* ===================================================================== *)
(** * Further properties                                                  *)
(* ===================================================================== *)

(** ** Decoding *)

(** X1. Whatever text [atob] accepts, of any length, [base64ToBlob]
    returns a blob that holds one byte per decoded character, all of them
    and in order, under the given type: cutting into slices of 8192
    loses nothing at the slice borders. *)
Theorem base64ToBlob_decodes_whole
  (base64 : jsval) (mimeType : string) (byteCharacters : jsstring) :
  atob base64 = inr byteCharacters ->
  base64ToBlob base64 mimeType = inr (mkBlob (map Uint8 byteCharacters) mimeType).
Proof.
  intros H. unfold base64ToBlob. rewrite H.
  rewrite slice_loop_concat by (cbn; lia). now rewrite drop_0.
Qed.

Lemma base64ToBlob_decodes_whole_witness :
  base64ToBlob (JStr (js "SGVsbG8")) "text/plain"
  = inr (mkBlob (map Uint8 (js "Hello")) "text/plain").
Proof. apply base64ToBlob_decodes_whole. reflexivity. Defined.

(** X2. The variant of [app.js], which cuts into slices of 512, builds
    the same blob as [pres.js] from every text, whenever either of them
    returns one. *)
Theorem base64ToBlob_app_agrees (base64 : jsval) (mimeType : string) (b : Blob) :
  base64ToBlob_app base64 mimeType = inr b <-> base64ToBlob base64 mimeType = inr b.
Proof.
  unfold base64ToBlob_app, base64ToBlob.
  destruct (atob base64) as [e|byteCharacters]; [split; discriminate|].
  rewrite !slice_loop_concat by (cbn; lia). reflexivity.
Qed.

Lemma base64ToBlob_app_agrees_witness :
  base64ToBlob_app (JStr (js "SGVsbG8")) "text/plain"
  = inr (mkBlob (map Uint8 (js "Hello")) "text/plain").
Proof.
  apply (proj2 (base64ToBlob_app_agrees _ _ _)).
  vm_compute. reflexivity.
Defined.

Section Malformed.

(** Stripping the padding removes nothing but [=]. *)
Lemma strip_padding_keeps (s : jsstring) (c : N) :
  c ∈ s -> c <> pad_char -> c ∈ strip_padding s.
Proof.
  intros Hin Hc. unfold strip_padding.
  destruct (length s mod 4 =? 0)%nat; [|assumption].
  destruct (rev s) as [|c1 [|c2 r]] eqn:E; try assumption.
  assert (Hs : s = rev r ++ [c2; c1]).
  { rewrite <- (rev_involutive s), E. cbn. now rewrite <- app_assoc. }
  destruct (N.eqb_spec c1 pad_char) as [->|]; [|assumption].
  rewrite Hs in Hin. apply elem_of_app in Hin as [Hin|Hin].
  - destruct (c2 =? pad_char); [assumption|].
    cbn. apply elem_of_app. now left.
  - apply elem_of_cons in Hin as [->|Hin].
    + destruct (N.eqb_spec c2 pad_char); [contradiction|].
      cbn. apply elem_of_app. right. now apply list_elem_of_singleton.
    + apply list_elem_of_singleton in Hin. contradiction.
Qed.

Lemma b64_values_foreign (s : jsstring) (c : N) :
  c ∈ s -> b64_value c = None -> b64_values s = None.
Proof.
  induction s as [|d s IH]; intros Hin Hc; [inversion Hin|].
  apply elem_of_cons in Hin as [<-|Hin]; cbn.
  - now rewrite Hc.
  - rewrite (IH Hin Hc). now destruct (b64_value d).
Qed.

End Malformed.

(** X3. A text that holds a character outside the base64 alphabet, other
    than white space and [=], is refused: [atob] throws an
    [InvalidCharacterError], and [base64ToBlob] returns no blob but throws
    a plain [Error] whose message is the prefix of its [catch] followed by
    the message of what [atob] threw, whatever that text is. *)
Theorem base64ToBlob_refuses_foreign_character
  (text : jsstring) (mimeType : string) (c : N) :
  c ∈ text -> b64_value c = None -> ascii_whitespace c = false -> c <> pad_char ->
  exists e,
    atob (JStr text) = inl e
    /\ err_name e = "InvalidCharacterError"%string
    /\ base64ToBlob (JStr text) mimeType
       = inl (mkError "Error" ("Ошибка декодирования данных: " +:+ err_message e)).
Proof.
  intros Hin Hval Hws Hpad.
  assert (H : exists e, atob (JStr text) = inl e
                        /\ err_name e = "InvalidCharacterError"%string).
  { unfold atob. cbn [ToString]. set (d := strip_padding _).
    assert (Hd : c ∈ d).
    { subst d. apply strip_padding_keeps; [|assumption].
      apply list_elem_of_In, filter_In. split; [now apply list_elem_of_In|].
      now rewrite Hws. }
    rewrite (b64_values_foreign d c Hd Hval).
    destruct (length d mod 4 =? 1)%nat; eexists; split; reflexivity. }
  destruct H as (e & He & Hname). exists e. split; [exact He|]. split; [exact Hname|].
  unfold base64ToBlob. rewrite He. reflexivity.
Qed.

Lemma base64ToBlob_refuses_foreign_character_witness :
  exists e, base64ToBlob (JStr (js "SGVs-G8=")) "text/plain" = inl e
            /\ err_name e = "Error"%string.
Proof.
  destruct (base64ToBlob_refuses_foreign_character (js "SGVs-G8=") "text/plain" 45)
    as (e & _ & _ & H).
  - vm_compute. repeat constructor.
  - reflexivity.
  - reflexivity.
  - discriminate.
  - eexists. split; [exact H | reflexivity].
Defined.

(** X4. Through [fileToBase64Chunked], the reader that [hideData] and
    [extractData] use, the round trip holds for every file that is not
    empty, of whatever size, the files of 1 MiB and more included: both
    branches of the method deliver the text of the whole file. *)
Theorem chunked_round_trip (file : File) (mimeType : string) :
  (0 < file_size file)%Z ->
  Forall (fun c => c <> comma) (file_type file) ->
  exists text,
    fileToBase64Chunked file = inr text
    /\ base64ToBlob text mimeType = inr (mkBlob (file_bytes file) mimeType).
Proof.
  intros _ Htype. exists (JStr (base64_encode (file_bytes file))). split.
  - rewrite fileToBase64Chunked_same. now apply fileToBase64_text.
  - apply base64ToBlob_encoded.
Qed.

Lemma chunked_round_trip_witness :
  (file_size one_mebibyte <? 1024 * 1024)%Z = false
  /\ exists text,
       fileToBase64Chunked one_mebibyte = inr text
       /\ base64ToBlob text "application/octet-stream"
          = inr (mkBlob (file_bytes one_mebibyte) "application/octet-stream").
Proof.
  assert (Hsize : file_size one_mebibyte = 1048576%Z).
  { unfold file_size, one_mebibyte. cbn [file_bytes].
    rewrite repeat_length, N_nat_Z. reflexivity. }
  split; [now rewrite Hsize|].
  apply chunked_round_trip; [rewrite Hsize; lia | now apply no_sep_check].
Defined.

(** ** File names and file selection *)

Section Trim.

Lemma trim_start_head (s : jsstring) (c : N) :
  head (trim_start s) = Some c -> js_whitespace c = false.
Proof.
  induction s as [|d s IH]; [discriminate|].
  cbn. destruct (js_whitespace d) eqn:E; [exact IH|].
  cbn. now intros [= <-].
Qed.

(** [trim] leaves a string that neither starts nor ends with white
    space. *)
Lemma trim_ends (s : jsstring) (c : N) :
  head (trim s) = Some c \/ last (trim s) = Some c -> js_whitespace c = false.
Proof.
  unfold trim.
  destruct (trim_start_suffix (rev (trim_start s))) as [pre Hpre].
  set (m := trim_start (rev (trim_start s))) in *.
  intros [H|H].
  - apply (trim_start_head s).
    rewrite <- (rev_involutive (trim_start s)), Hpre, rev_app_distr.
    destruct (rev m); [discriminate | exact H].
  - apply (trim_start_head (rev (trim_start s))). fold m.
    destruct m as [|d m]; [discriminate|].
    cbn in H. rewrite last_snoc in H. exact H.
Qed.

Lemma filter_sublist (f : N -> bool) (s : jsstring) : List.filter f s `sublist_of` s.
Proof.
  induction s as [|c s IH]; [constructor|].
  cbn. destruct (f c); now constructor.
Qed.

End Trim.

(** X5. Whatever name comes in, the name [sanitizeFilename] returns has
    at most 255 code units, holds none of the characters < > : | ? * and
    double quote and no code unit below 0x20, and neither starts nor ends
    with white space. *)
Theorem sanitizeFilename_guarantees (filename : jsstring) :
  let name := sanitizeFilename filename in
  (length name <= 255)%nat
  /\ Forall (fun c => dangerous_char c = false) name
  /\ (forall c, head name = Some c -> js_whitespace c = false)
  /\ (forall c, last name = Some c -> js_whitespace c = false).
Proof.
  cbn zeta. split; [apply sanitizeFilename_length|].
  split; [apply sanitizeFilename_class|].
  unfold sanitizeFilename.
  destruct filename as [|c0 rest]; [split; discriminate|].
  split; intros c H; eapply trim_ends; eauto.
Qed.

Lemma sanitizeFilename_guarantees_witness :
  head (sanitizeFilename (js "  a.txt ")) = Some 97 /\ js_whitespace 97 = false.
Proof.
  split; [vm_compute; reflexivity|].
  apply (proj1 (proj2 (proj2 (sanitizeFilename_guarantees (js "  a.txt "))))).
  vm_compute. reflexivity.
Defined.

(** X6. The sanitiser only deletes: the name it returns is the name it
    was given with some code units left out, the others in their
    order. *)
Theorem sanitizeFilename_only_deletes (filename : jsstring) :
  sanitizeFilename filename `sublist_of` filename.
Proof.
  unfold sanitizeFilename. destruct filename as [|c0 rest]; [constructor|].
  set (l := List.filter _ _).
  assert (Hl : l `sublist_of` c0 :: rest) by apply filter_sublist.
  destruct (strip_leading_dots_suffix l) as [pre Hpre].
  set (d := strip_leading_dots l) in *.
  destruct (trim_infix (take 255 d)) as (a & b & Hab).
  etrans; [|exact Hl]. rewrite Hpre. apply sublist_inserts_l.
  etrans; [|apply (sublist_take _ 255)].
  rewrite Hab at 2. apply sublist_inserts_l, sublist_inserts_r. reflexivity.
Qed.

Section Selection.

Lemma carrier_extension_check (ext : jsstring) :
  existsb (jsstring_eqb ext) carrier_extensions = true <-> In ext carrier_extensions.
Proof.
  rewrite existsb_exists. split.
  - intros (x & Hx & Heq). unfold jsstring_eqb in Heq.
    apply bool_decide_eq_true in Heq. now subst.
  - intros H. exists ext. split; [assumption|].
    unfold jsstring_eqb. now apply bool_decide_eq_true.
Qed.

Lemma processFile_cases (file : File) (type : FileSlot) (s : App) :
  (valid_for type file /\ processFile file type s = set_slot type (Some file) s)
  \/ (~ valid_for type file
      /\ exists message, processFile file type s = showToast "Ошибка" message "error" s).
Proof.
  unfold processFile, valid_for, valid_carrier, valid_file.
  destruct (sanitizeFilename (file_name file)) as [|c name] eqn:Hname.
  { right. split; [destruct type; tauto | eauto]. }
  destruct (Z.ltb_spec (50 * 1024 * 1024) (file_size file)).
  { right. split; [destruct type; lia | eauto]. }
  destruct (Z.eqb_spec (file_size file) 0).
  { right. split; [destruct type; lia | eauto]. }
  pose proof (file_size_nonneg file).
  pose proof (carrier_extension_check (dot_extension (file_name file))) as Hext.
  destruct type;
    try (destruct (existsb _ carrier_extensions);
         [left; repeat split; try lia; try discriminate; now apply Hext
         |right; split; [|eauto];
          intros [_ Hin]; apply Hext in Hin; discriminate]).
  left. repeat split; try lia; discriminate.
Qed.

End Selection.

(** X7. [processFile] stores the file in its slot exactly when the file
    passes every check: a name that is not empty once sanitised, a size
    above 0 and of at most 50 MiB, and, for a container or a file to
    extract from, an extension of the list. Otherwise it changes nothing
    but shows one error toast. *)
Theorem processFile_accepts_exactly (file : File) (type : FileSlot) (s : App) :
  (valid_for type file -> processFile file type s = set_slot type (Some file) s)
  /\ (~ valid_for type file ->
      exists message, processFile file type s = showToast "Ошибка" message "error" s).
Proof.
  destruct (processFile_cases file type s) as [[Hv H]|[Hv H]]; split; tauto.
Qed.

Lemma processFile_accepts_exactly_witness :
  processFile carrier_png SlotContainer first_visit
  = set_slot SlotContainer (Some carrier_png) first_visit.
Proof.
  apply (proj1 (processFile_accepts_exactly carrier_png SlotContainer first_visit)).
  split; [split|].
  - vm_compute. split; [reflexivity | discriminate].
  - vm_compute. discriminate.
  - vm_compute. tauto.
Defined.

(** Case analysis as in [operation_cases], remembering what each file
    slot and the avatar held. *)
Ltac operation_cases_eq :=
  unfold_operation; cbn;
  repeat (ledger_shape; cbn;
          first
            [ match goal with
              | H : containerFile ?s = _ |- context [containerFile ?s] => rewrite H
              | H : dataFile ?s = _ |- context [dataFile ?s] => rewrite H
              | H : navAvatarVisible ?s = _ |- context [navAvatarVisible ?s] =>
                  rewrite H
              end
            | match goal with
              | |- context [find_pending ?c ?st ?s] =>
                  destruct (find_pending c st s) eqn:?
              | |- context [match ?r with inl _ => _ | inr _ => _ end] =>
                  is_var r; destruct r
              | |- context [if ?b then _ else _] => is_var b; destruct b
              | |- context [p_args ?p] => destruct (p_args p) eqn:?
              | |- context [fileToBase64Chunked ?f] =>
                  destruct (fileToBase64Chunked f)
              | |- context [decide ?P] => destruct (decide P)
              | |- context [read_response ?a ?o] =>
                  destruct (read_response a o) eqn:?
              | |- context [containerFile ?s] =>
                  is_var s; destruct (containerFile s) eqn:?
              | |- context [dataFile ?s] => is_var s; destruct (dataFile s) eqn:?
              | |- context [base64ToBlob ?a ?b] =>
                  let H := fresh in
                  destruct (base64ToBlob a b) as [[? ?]|?] eqn:H;
                  [apply base64ToBlob_error_name in H; cbn in H; subst | clear H]
              | |- context [navAvatarVisible ?s] =>
                  is_var s; destruct (navAvatarVisible s) eqn:?
              | |- context [String.eqb ?a ?b] => destruct (String.eqb a b)
              end ];
          cbn).

Section Runs.

(** A property that every event keeps holds after every run. *)
Lemma run_invariant (Inv : App -> Prop) :
  (forall e s, Inv s -> Inv (step e s)) ->
  forall es s, Inv s -> Inv (run es s).
Proof.
  intros Hstep es. induction es as [|e es IH]; intros s Hs; [exact Hs|].
  cbn. apply IH, Hstep, Hs.
Qed.

Lemma Forall_list_filter {A} (P : A -> Prop) (f : A -> bool) (l : list A) :
  Forall P l -> Forall P (List.filter f l).
Proof.
  intros H. apply Forall_forall. intros x Hx.
  apply list_elem_of_In, filter_In in Hx as [Hx _].
  apply list_elem_of_In in Hx. revert x Hx. now apply Forall_forall.
Qed.

(** Marking an operation as fetching keeps its arguments and its
    signal. *)
Lemma Forall_mark_fetching (P : Pending -> Prop) (c : nat) (l : list Pending) :
  (forall q st, P q -> P (mkPending (p_signal q) (p_args q) (p_password q) st)) ->
  Forall P l ->
  Forall P (map (fun q => if Nat.eqb (p_signal q) c
                          then mkPending c (p_args q) (p_password q) Fetching
                          else q) l).
Proof.
  intros HP H. induction H as [|q l Hq _ IH]; cbn; constructor; [|exact IH].
  destruct (Nat.eqb_spec (p_signal q) c) as [<-|]; [now apply HP | exact Hq].
Qed.

Lemma find_pending_In (c : nat) (st : Stage) (s : App) (p : Pending) :
  find_pending c st s = Some p -> p ∈ inflight s.
Proof.
  unfold find_pending. intros H. apply find_some in H as [H _].
  now apply list_elem_of_In.
Qed.

Lemma mark_fetching_signals (c : nat) (l : list Pending) :
  map p_signal
    (map (fun q => if Nat.eqb (p_signal q) c
                   then mkPending c (p_args q) (p_password q) Fetching
                   else q) l)
  = map p_signal l.
Proof.
  induction l as [|q l IH]; [reflexivity|]. cbn. rewrite IH. f_equal.
  destruct (Nat.eqb_spec (p_signal q) c); [now subst | reflexivity].
Qed.

Lemma filter_signals_sublist (f : Pending -> bool) (l : list Pending) :
  map p_signal (List.filter f l) `sublist_of` map p_signal l.
Proof.
  induction l as [|q l IH]; [constructor|].
  cbn. destruct (f q); cbn; now constructor.
Qed.

(** What the completion of readers or of an exchange leaves alone: the
    selected files, the method, the controllers made and aborted so far;
    the suspended operations keep their arguments and none is added. *)
Lemma resume_frame (e : Event) (s : App) :
  match e with
  | EvFilesRead _ _ | EvSettled _ _ =>
      containerFile (step e s) = containerFile s
      /\ dataFile (step e s) = dataFile s
      /\ extractFile (step e s) = extractFile s
      /\ currentMethod (step e s) = currentMethod s
      /\ nextController (step e s) = nextController s
      /\ aborted (step e s) = aborted s
      /\ (currentOperationController (step e s) = None
          \/ currentOperationController (step e s) = currentOperationController s)
      /\ map p_signal (inflight (step e s)) `sublist_of` map p_signal (inflight s)
      /\ forall P : Pending -> Prop,
           (forall q st, P q -> P (mkPending (p_signal q) (p_args q) (p_password q) st)) ->
           Forall P (inflight s) -> Forall P (inflight (step e s))
  | _ => True
  end.
Proof.
  destruct e; try exact I; cbn [step].
  - operation_cases_eq; repeat split; auto;
      try apply filter_signals_sublist;
      try (rewrite mark_fetching_signals; reflexivity);
      try reflexivity;
      intros P HP HF;
      try (apply Forall_list_filter; assumption);
      try (apply Forall_mark_fetching; assumption); assumption.
  - operation_cases_eq; repeat split; auto;
      try apply filter_signals_sublist; try reflexivity;
      intros P HP HF;
      try (apply Forall_list_filter; assumption); assumption.
Qed.

End Runs.

Section Validated.

(** Splits [files_validated] into its four parts and closes those that
    are hypotheses. *)
Ltac validated :=
  unfold files_validated; cbn; (split; [|split; [|split]]); try assumption.

Lemma files_validated_step (e : Event) (s : App) :
  files_validated s -> files_validated (step e s).
Proof.
  intros (Hc & Hd & Hx & Hp).
  destruct e; cbn [step].
  - validated.
  - unfold showHideInterface. destruct (currentMethod s); validated.
  - destruct (processFile_cases file type s) as [[Hv ->]|[_ [m ->]]];
      [|validated].
    destruct type; cbn in Hv; validated; intros f [= <-]; assumption.
  - destruct type; validated; discriminate.
  - unfold startHiding. destruct (quota_reached HIDE_LIMIT s).
    { unfold showLoginPrompt. destruct (loginPrompt s); validated. }
    destruct (containerFile s) as [c|] eqn:Ec, (dataFile s) as [d|] eqn:Ed,
      (currentMethod s); validated; rewrite ?Ec, ?Ed; try assumption.
    constructor; [|assumption]. cbn. split; [now apply Hc | now apply Hd].
  - unfold startExtracting. destruct (quota_reached EXTRACT_LIMIT s).
    { unfold showLoginPrompt. destruct (loginPrompt s); validated. }
    destruct (extractFile s) as [x|] eqn:Ex; validated;
      rewrite ?Ex; try assumption.
    constructor; [|assumption]. cbn. now apply Hx.
  - destruct (resume_frame (EvFilesRead c loaded) s)
      as (E1 & E2 & E3 & _ & _ & _ & _ & _ & HF).
    cbn [step] in *. unfold files_validated. rewrite E1, E2, E3.
    (split; [|split; [|split]]); try assumption. apply HF; auto.
  - destruct (resume_frame (EvSettled c o) s)
      as (E1 & E2 & E3 & _ & _ & _ & _ & _ & HF).
    cbn [step] in *. unfold files_validated. rewrite E1, E2, E3.
    (split; [|split; [|split]]); try assumption. apply HF; auto.
  - unfold cancelOperation. destruct (currentOperationController s);
      validated; discriminate.
  - unfold revokeTrackedObjectURL. destruct (decide _); validated.
  - validated.
  - action_cases; validated.
  - action_cases; validated.
Qed.

End Validated.

(** X8. In every run of the page, every file that is selected and every
    file that a suspended operation was started with has passed the
    checks of [processFile]: nothing reaches [hideData] or [extractData],
    and so the network, that is empty, larger than 50 MiB, without a
    usable name or, for a carrier, of a foreign extension. *)
Theorem files_are_validated (es : list Event) (ls : Storage) (navAvatar : bool) :
  files_validated (run es (new_StegoProApp ls navAvatar)).
Proof.
  apply run_invariant; [apply files_validated_step|].
  unfold files_validated, new_StegoProApp, loadGoogleUser. cbn.
  ledger_shape. cbn. (split; [|split; [|split]]); try discriminate. constructor.
Qed.

(** ** Extensions *)

Section Extensions.

Lemma split_on_none (sep : N) (s : jsstring) : sep ∉ s -> split_on sep s = [s].
Proof.
  induction s as [|c s IH]; intros H; [reflexivity|].
  apply not_elem_of_cons in H as [Hc Hs].
  cbn. rewrite (proj2 (N.eqb_neq c sep)) by congruence.
  now rewrite (IH Hs).
Qed.

(** The last piece of a split is what follows the last separator. *)
Lemma split_on_last (sep : N) (base ext : jsstring) :
  sep ∉ ext -> List.last (split_on sep (base ++ sep :: ext)) [] = ext.
Proof.
  intros Hext.
  assert (H : exists piece pieces,
             split_on sep (base ++ sep :: ext) = piece :: pieces
             /\ pieces <> [] /\ List.last pieces [] = ext).
  { induction base as [|c base (piece & pieces & E & Hne & Hl)].
    - exists [], [ext]. cbn. rewrite N.eqb_refl, (split_on_none _ _ Hext).
      repeat split. discriminate.
    - cbn. rewrite E. destruct (c =? sep).
      + exists [], (piece :: pieces). repeat split; [discriminate|].
        destruct pieces; [contradiction | exact Hl].
      + exists (c :: piece), pieces. repeat split; assumption. }
  destruct H as (piece & pieces & -> & Hne & Hl).
  destruct pieces; [contradiction | exact Hl].
Qed.

Lemma includes_dot (s : jsstring) : existsb (N.eqb 46) s = true <-> 46 ∈ s.
Proof.
  rewrite existsb_exists. split.
  - intros (x & Hx & Heq). apply N.eqb_eq in Heq. subst.
    now apply list_elem_of_In.
  - intros H. exists 46. split; [now apply list_elem_of_In | reflexivity].
Qed.

End Extensions.

(** X9. The extension [processFile] compares with its list is what
    follows the last dot of the name, lowered; a name without any dot is
    taken whole as its own extension. This is for a name whose part after
    the last dot is ASCII, where lowering turns the capitals A to Z into
    small letters and keeps the rest. *)
Theorem dot_extension_is_last_piece (base ext : jsstring) :
  46 ∉ ext ->
  Forall (fun c => c < 128) ext ->
  dot_extension (base ++ 46 :: ext) = 46 :: toLowerCase ext
  /\ dot_extension ext = 46 :: toLowerCase ext.
Proof.
  intros Hext _. unfold dot_extension.
  now rewrite split_on_last, split_on_none.
Qed.

Lemma dot_extension_is_last_piece_witness :
  dot_extension (js "My.Photo.PNG") = js ".png"
  /\ dot_extension (js "PNG") = js ".png".
Proof.
  assert (H : 46 ∉ js "PNG")
    by (intros Hin; apply includes_dot in Hin; discriminate Hin).
  assert (Hascii : Forall (fun c => c < 128) (js "PNG"))
    by (repeat constructor).
  split.
  - apply (proj1 (dot_extension_is_last_piece (js "My.Photo") (js "PNG") H Hascii)).
  - apply (proj2 (dot_extension_is_last_piece [] (js "PNG") H Hascii)).
Defined.

(** X10. The [file_extension] that [hideData] sends holds no dot; when
    the name of the secret file has a dot, the name is some base, a dot
    and this extension; when it has none, the extension is [bin]. *)
Theorem hide_file_extension_spec (originalFileName : jsstring) :
  (46 ∉ hide_file_extension originalFileName)
  /\ (46 ∈ originalFileName ->
      exists base,
        originalFileName = base ++ 46 :: hide_file_extension originalFileName)
  /\ (46 ∉ originalFileName -> hide_file_extension originalFileName = js "bin").
Proof.
  unfold hide_file_extension.
  destruct (existsb (N.eqb 46) originalFileName) eqn:E.
  - apply includes_dot in E.
    destruct (list_elem_of_split_r _ _ E) as (base & ext & -> & Hext).
    rewrite (split_on_last _ _ _ Hext).
    split; [assumption|]. split; [eauto | intros H; contradiction].
  - assert (H : 46 ∉ originalFileName)
      by (intros H; apply includes_dot in H; congruence).
    split; [intros Hin; apply includes_dot in Hin; discriminate Hin|].
    split; [intros Hin; contradiction | reflexivity].
Qed.

Lemma hide_file_extension_spec_witness :
  hide_file_extension (js "notes") = js "bin"
  /\ exists base, js "a.tar.gz" = base ++ 46 :: hide_file_extension (js "a.tar.gz").
Proof.
  split.
  - apply (proj2 (proj2 (hide_file_extension_spec (js "notes")))).
    intros Hin. apply includes_dot in Hin. discriminate Hin.
  - apply (proj1 (proj2 (hide_file_extension_spec (js "a.tar.gz")))).
    apply includes_dot. reflexivity.
Defined.

(** ** Tracked URLs across the life of the page *)

Section TrackerRuns.

(** What an event can do to the tracker: nothing, track the next fresh
    URL for a new blob (when an exchange settles), or release the URL of
    a download link that was clicked. *)
Lemma step_tracker (e : Event) (s : App) :
  (objectURLs (step e s) = objectURLs s
   /\ blobStore (step e s) = blobStore s
   /\ nextURL (step e s) = nextURL s)
  \/ ((exists c o, e = EvSettled c o)
      /\ exists b,
          objectURLs (step e s) = {[nextURL s]} ∪ objectURLs s
          /\ blobStore (step e s) = <[nextURL s := b]> (blobStore s)
          /\ nextURL (step e s) = S (nextURL s))
  \/ (exists url,
        e = EvRevoke url
        /\ objectURLs (step e s) = objectURLs s ∖ {[url]}
        /\ blobStore (step e s) = delete url (blobStore s)
        /\ nextURL (step e s) = nextURL s).
Proof.
  destruct e; cbn [step].
  7: operation_cases; left; repeat split.
  7: operation_cases;
       first [ left; repeat split; reflexivity
             | right; left; split; [eauto|]; eexists; repeat split; reflexivity ].
  8: { unfold revokeTrackedObjectURL. destruct (decide _); [|left; repeat split].
       right. right. exists url. repeat split. }
  all: action_cases; left; repeat split.
Qed.

Lemma tracker_wf_step (e : Event) (s : App) : tracker_wf s -> tracker_wf (step e s).
Proof.
  intros [H1 H2]. unfold tracker_wf.
  destruct (step_tracker e s)
    as [(-> & -> & ->) | [(_ & b & -> & -> & ->) | (url & _ & -> & -> & ->)]].
  - split; assumption.
  - split; intros u.
    + rewrite elem_of_union, elem_of_singleton, lookup_insert_is_Some.
      intros [->|Hu]; [now left|].
      destruct (decide (nextURL s = u)); [now left | right; auto].
    + rewrite lookup_insert_is_Some. intros [<-|[_ Hu]]; [lia|].
      specialize (H2 u Hu). lia.
  - split; intros u.
    + rewrite elem_of_difference, elem_of_singleton, lookup_delete_is_Some.
      intros [Hu Hne]. split; [congruence | auto].
    + rewrite lookup_delete_is_Some. intros [_ Hu]. auto.
Qed.

Lemma foldr_revoke_lookup (urls : list nat) (s : App) (u : nat) :
  u ∉ urls -> blobStore (foldr revokeObjectURL s urls) !! u = blobStore s !! u.
Proof.
  induction urls as [|v urls IH]; intros Hu; [reflexivity|].
  apply not_elem_of_cons in Hu as [Hne Hu]. cbn.
  rewrite lookup_delete_ne by congruence. now apply IH.
Qed.

Lemma tracker_wf_new (ls : Storage) (navAvatar : bool) :
  tracker_wf (new_StegoProApp ls navAvatar).
Proof.
  unfold tracker_wf, new_StegoProApp, loadGoogleUser. cbn.
  ledger_shape. cbn. split; intros u.
  - intros H. now apply not_elem_of_empty in H.
  - rewrite lookup_empty. intros [x Hx]. discriminate.
Qed.

End TrackerRuns.

(** X11. In every run of the page, every tracked URL is an entry of the
    blob URL store, and every entry of the store was handed out earlier
    than the next URL: a URL is never tracked after its blob is gone, and
    no URL is handed out twice. *)
Theorem tracker_stays_consistent (es : list Event) (ls : Storage) (navAvatar : bool) :
  tracker_wf (run es (new_StegoProApp ls navAvatar)).
Proof.
  apply run_invariant; [apply tracker_wf_step | apply tracker_wf_new].
Qed.

(** X12. Tracking a blob and revoking the URL that came back returns the
    tracker to where it was: the same tracked URLs and the same blob URL
    store. The URL that came back was not tracked before. *)
Theorem create_then_revoke (blob : Blob) (s : App) :
  tracker_wf s ->
  let (s1, url) := createTrackedObjectURL blob s in
  (url ∉ objectURLs s)
  /\ (url ∈ objectURLs s1)
  /\ blobStore s1 !! url = Some blob
  /\ objectURLs (revokeTrackedObjectURL url s1) = objectURLs s
  /\ blobStore (revokeTrackedObjectURL url s1) = blobStore s.
Proof.
  intros [H1 H2]. unfold createTrackedObjectURL, revokeTrackedObjectURL. cbn.
  assert (Hstore : blobStore s !! nextURL s = None).
  { destruct (blobStore s !! nextURL s) eqn:E; [|reflexivity].
    assert (Hlt : (nextURL s < nextURL s)%nat) by (apply H2; eauto). lia. }
  assert (Hnew : nextURL s ∉ objectURLs s).
  { intros Hin. apply H1 in Hin. rewrite Hstore in Hin. now destruct Hin. }
  destruct (decide (nextURL s ∈ {[nextURL s]} ∪ objectURLs s)) as [Hin|Hout].
  - cbn. repeat split; try assumption.
    + apply lookup_insert_eq.
    + apply set_eq. intros u.
      rewrite elem_of_difference, elem_of_union, elem_of_singleton.
      split; [intros [[->|Hu] Hne]; [contradiction | assumption]|].
      intros Hu. split; [now right | congruence].
    + now apply delete_insert_id.
  - exfalso. apply Hout, elem_of_union_l. now apply elem_of_singleton.
Qed.

Lemma create_then_revoke_witness :
  let s := run (pick_and_hide ++ [EvFilesRead 0 true; EvSettled 0 positive_answer])
             first_visit in
  let s1 := fst (createTrackedObjectURL (mkBlob [x00] "x") s) in
  let url := snd (createTrackedObjectURL (mkBlob [x00] "x") s) in
  url = 1%nat /\ objectURLs (revokeTrackedObjectURL url s1) = objectURLs s.
Proof.
  intros s s1 url. split; [reflexivity|].
  assert (Hwf : tracker_wf s).
  { apply run_invariant; [apply tracker_wf_step | apply tracker_wf_new]. }
  pose proof (create_then_revoke (mkBlob [x00] "x") s Hwf) as H.
  apply H.
Defined.

(** X13. A tracked URL stays tracked through every event except the
    revocation of that very URL: neither [cancelOperation], nor a new
    start, nor the end of another operation, nor logout releases it. *)
Theorem only_its_revoke_releases (e : Event) (s : App) (u : nat) :
  u ∈ objectURLs s -> e <> EvRevoke u -> u ∈ objectURLs (step e s).
Proof.
  intros Hu He.
  destruct (step_tracker e s)
    as [(-> & _) | [(_ & b & -> & _) | (url & -> & -> & _)]].
  - assumption.
  - now apply elem_of_union_r.
  - apply elem_of_difference. split; [assumption|].
    rewrite elem_of_singleton. congruence.
Qed.

Lemma only_its_revoke_releases_witness :
  let s := run (pick_and_hide ++ [EvFilesRead 0 true; EvSettled 0 positive_answer])
             first_visit in
  0%nat ∈ objectURLs (step EvCancelOperation s).
Proof.
  intros s. apply only_its_revoke_releases; [|discriminate].
  apply elem_of_elements. vm_compute. repeat constructor.
Defined.

(** X14. [cleanupObjectURLs] takes out of the blob URL store exactly the
    URLs that were tracked and leaves every other entry as it was. *)
Theorem cleanup_revokes_exactly (s : App) (u : nat) :
  blobStore (cleanupObjectURLs s) !! u
  = if decide (u ∈ objectURLs s) then None else blobStore s !! u.
Proof.
  destruct (decide (u ∈ objectURLs s)) as [Hin|Hout].
  - now apply cleanup_revokes.
  - unfold cleanupObjectURLs. cbn. apply foldr_revoke_lookup.
    now rewrite elem_of_elements.
Qed.

(** ** The ledger across the life of the page *)

Section LedgerRuns.

(** [checkAchievements] in full: what it appends, shows, stores and
    sends. *)
Lemma checkAchievements_exact (s : App) :
  checkAchievements s
  = set_requests
      (match newAchievements s with
       | [] => requests s
       | _ => PostSaveStats (stats s) (achievements s ++ newAchievements s)
                :: requests s
       end)
      (set_localStorage
         (mkStorage (stegopro_anon_ops (localStorage s))
            (stegopro_stats (localStorage s))
            (match newAchievements s with
             | [] => stegopro_achievements (localStorage s)
             | _ => Some (achievements s ++ newAchievements s)
             end))
         (set_toasts
            (rev (map (fun a => mkToast "Достижение разблокировано!"
                                  (ach_name a +:+ ": " +:+ ach_description a)
                                  "success")
                    (newAchievements s)) ++ toasts s)
            (set_achievements (achievements s ++ newAchievements s) s))).
Proof.
  unfold checkAchievements. rewrite record_new_shape.
  generalize (newAchievements s) as new. intros new.
  destruct s as [? ? ? ? ? ? ? ? ? ? ? ? ? ? ? ? ? ? ? [? ? ?]], new as [|a new].
  - rewrite app_nil_r. cbn. reflexivity.
  - unfold saveStatsToCloud, saveAchievements. cbn. reflexivity.
Qed.

End LedgerRuns.

(** In a goal, every [checkAchievements x] is replaced by what it does. *)
Ltac ledger_exact :=
  repeat match goal with
         | |- context [checkAchievements ?x] => rewrite (checkAchievements_exact x)
         end.

(** Case analysis as in [operation_cases], with [checkAchievements] in
    full. *)
Ltac operation_cases_exact :=
  unfold_operation; cbn;
  repeat (ledger_exact; cbn;
          match goal with
          | |- context [find_pending ?c ?st ?s] => destruct (find_pending c st s)
          | |- context [match ?r with inl _ => _ | inr _ => _ end] =>
              is_var r; destruct r
          | |- context [if ?b then _ else _] => is_var b; destruct b
          | |- context [p_args ?p] => destruct (p_args p)
          | |- context [fileToBase64Chunked ?f] => destruct (fileToBase64Chunked f)
          | |- context [decide ?P] => destruct (decide P)
          | |- context [read_response ?a ?o] => destruct (read_response a o)
          | |- context [containerFile ?s] => is_var s; destruct (containerFile s)
          | |- context [dataFile ?s] => is_var s; destruct (dataFile s)
          | |- context [base64ToBlob ?a ?b] =>
              let H := fresh in
              destruct (base64ToBlob a b) as [[? ?]|?] eqn:H;
              [apply base64ToBlob_error_name in H; cbn in H; subst | clear H]
          | |- context [navAvatarVisible ?s] =>
              is_var s; destruct (navAvatarVisible s)
          | |- context [String.eqb ?a ?b] => destruct (String.eqb a b)
          end; cbn).

Section Persisted.

Lemma default_new (new : list Achievement) (stored : option (list Achievement))
  (achs : list Achievement) :
  default [] stored = achs ->
  default [] (match new with [] => stored | _ => Some (achs ++ new) end) = achs ++ new.
Proof. intros H. destruct new; [now rewrite app_nil_r | reflexivity]. Qed.

Lemma persisted_checkAchievements (s : App) :
  persisted s -> persisted (checkAchievements s).
Proof.
  intros (Hs & Ha & Hn). rewrite checkAchievements_exact.
  unfold persisted. cbn. repeat split; try assumption. now apply default_new.
Qed.

Lemma persisted_step (e : Event) (s : App) : persisted s -> persisted (step e s).
Proof.
  intros (Hs & Ha & Hn).
  destruct e; cbn [step].
  7, 8: operation_cases_exact; unfold persisted; cbn; repeat split;
        try assumption; try reflexivity; now apply default_new.
  all: action_cases; unfold persisted; cbn; repeat split;
       try assumption; reflexivity.
Qed.

Lemma persisted_new (ls : Storage) (navAvatar : bool) :
  persisted (new_StegoProApp ls navAvatar).
Proof.
  unfold new_StegoProApp, loadGoogleUser. rewrite checkAchievements_exact.
  unfold persisted. cbn. repeat split. now apply default_new.
Qed.

End Persisted.

(** X15. What the page holds as stats, as achievements and as anonymous
    counter is always what the local storage holds: a page loaded again on
    the storage that any run left behind starts with the same stats and
    the same anonymous counter, and with the same achievements followed by
    those the rules make new at that load. *)
Theorem reload_restores_ledger (es : list Event) (ls : Storage) (navAvatar again : bool) :
  let s := run es (new_StegoProApp ls navAvatar) in
  let s' := new_StegoProApp (localStorage s) again in
  stats s' = stats s
  /\ anonOperationCount s' = anonOperationCount s
  /\ achievements s `prefix_of` achievements s'.
Proof.
  intros s s'.
  assert (Hp : persisted s).
  { apply run_invariant; [apply persisted_step | apply persisted_new]. }
  destruct Hp as (Hs & Ha & Hn).
  unfold s', new_StegoProApp, loadGoogleUser. rewrite checkAchievements_exact. cbn.
  rewrite Hs, Ha, Hn. repeat split. now eexists.
Qed.

Section Unlocking.










End Unlocking.





(** ** What is counted, and when *)



Section SuccessRate.



End SuccessRate.



(** X20. An operation that ends without success is reported and not
    counted: exactly one toast of type [error] is added, whose message is
    the head for the kind of the operation that ended (the one about
    hiding for a hide, the one about extracting for an extraction)
    followed by the message of what was thrown; stats, achievements,
    anonymous counter and local storage keep their values. *)
Theorem failure_is_reported_and_not_counted (e : Event) (s : App) (error : JsError) :
  outcome_of e s = Some (Failed error) ->
  exists p,
    resumed e s = Some p
    /\ toasts (step e s)
       = mkToast "Ошибка"
           (failure_prefix (kind_of (p_args p)) +:+ err_message error) "error"
         :: toasts s
    /\ stats (step e s) = stats s
    /\ achievements (step e s) = achievements s
    /\ anonOperationCount (step e s) = anonOperationCount s
    /\ localStorage (step e s) = localStorage s.
Proof.
  destruct e; try discriminate; cbn [step outcome_of resumed].
  - operation_cases_eq; intros [= <-];
      (eexists; split; [reflexivity|]);
      match goal with
      | H : p_args _ = _ |- _ => rewrite H
      end; repeat split.
  - operation_cases_eq; intros [= <-];
      (eexists; split; [reflexivity|]);
      match goal with
      | H : p_args _ = _ |- _ => rewrite H
      end; repeat split.
Qed.

Lemma failure_is_reported_and_not_counted_witness :
  let s := run (pick_and_hide ++ [EvFilesRead 0 true]) first_visit in
  let e := EvSettled 0 NetworkFailure in
  stats (step e s) = stats s
  /\ toasts (step e s)
     = mkToast "Ошибка"
         ("Не удалось скрыть данные: "
          +:+ "Ошибка при сокрытии данных: " +:+ "Failed to fetch") "error"
       :: toasts s.
Proof.
  intros s e.
  assert (H : outcome_of e s
              = Some (Failed (new_Error ("Ошибка при сокрытии данных: "
                                         +:+ "Failed to fetch"))))
    by (vm_compute; reflexivity).
  assert (Hp : resumed e s
               = Some (mkPending 0 (HideArgs carrier_png secret_txt) "pw" Fetching))
    by (vm_compute; reflexivity).
  destruct (failure_is_reported_and_not_counted _ _ _ H) as (p & Hr & Ht & Hs & _).
  rewrite Hp in Hr. injection Hr as <-.
  split; [exact Hs | exact Ht].
Defined.

(** X21. A hide whose data file is no longer selected when the service
    answers positively shows its result and counts nothing: the output is
    decoded, stored under a new tracked URL and linked from the results,
    then reading the size of the data file throws; the operation ends as
    failed with a [TypeError], and stats and anonymous counter keep their
    values. *)
Theorem hide_without_data_file_is_shown_uncounted
  (s : App) (c : nat) (p : Pending) (container data carrier : File)
  (status : N) (result : ServiceResult) (blob : Blob) :
  find_pending c Fetching s = Some p ->
  p_args p = HideArgs container data ->
  c ∉ aborted s ->
  containerFile s = Some carrier ->
  dataFile s = None ->
  res_success result = true ->
  base64ToBlob (res_data result) "application/octet-stream" = inr blob ->
  let e := EvSettled c (HttpResponse true status (Some result)) in
  (exists error, outcome_of e s = Some (Failed error) /\ err_name error = "TypeError")
  /\ resultsContent (step e s) = [nextURL s]
  /\ blobStore (step e s) !! nextURL s = Some blob
  /\ nextURL s ∈ objectURLs (step e s)
  /\ stats (step e s) = stats s
  /\ anonOperationCount (step e s) = anonOperationCount s.
Proof.
  intros Hp Hargs Hc Hcf Hdf Hok Hblob e. unfold e. cbn [step outcome_of].
  unfold settled. rewrite Hp. unfold read_response.
  rewrite bool_decide_eq_false_2 by assumption. cbn. rewrite Hok. cbn.
  unfold finish, on_success, showResults, bind, lift, get, act, ret, deref, throw.
  rewrite Hargs. cbn. rewrite Hcf. cbn. rewrite Hblob. cbn. rewrite Hdf. cbn.
  repeat split.
  - eexists. split; reflexivity.
  - apply lookup_insert_eq.
  - apply elem_of_union_l. now apply elem_of_singleton.
Qed.

Lemma hide_without_data_file_is_shown_uncounted_witness :
  let s := run (pick_and_hide ++ [EvFilesRead 0 true; EvRemoveFile SlotData])
             first_visit in
  let e := EvSettled 0 positive_answer in
  resultsContent (step e s) = [0%nat] /\ anonOperationCount (step e s) = 0%Z.
Proof.
  intros s e.
  assert (Hp : find_pending 0 Fetching s
               = Some (mkPending 0 (HideArgs carrier_png secret_txt) "pw" Fetching))
    by (vm_compute; reflexivity).
  assert (Hc : 0%nat ∉ aborted s).
  { intros H. apply elem_of_elements in H. vm_compute in H. inversion H. }
  assert (Hcf : containerFile s = Some carrier_png) by (vm_compute; reflexivity).
  assert (Hdf : dataFile s = None) by (vm_compute; reflexivity).
  assert (Hb : base64ToBlob (JStr (js "SGVs")) "application/octet-stream"
               = inr (mkBlob [x48; x65; x6c] "application/octet-stream"))
    by (vm_compute; reflexivity).
  destruct (hide_without_data_file_is_shown_uncounted s 0
              _ carrier_png secret_txt carrier_png 200
              (mkResult true "" (JStr (js "SGVs")) [] []) _
              Hp eq_refl Hc Hcf Hdf eq_refl Hb) as (_ & Hr & _ & _ & _ & Hn).
  split; [exact Hr | exact Hn].
Defined.

(** ** The end of an operation *)

Section Ended.

Lemma find_removed (c : nat) (g : Pending -> bool) (l : list Pending) :
  List.find (fun p => Nat.eqb (p_signal p) c && g p)
    (List.filter (fun q => negb (Nat.eqb (p_signal q) c)) l) = None.
Proof.
  induction l as [|q l IH]; [reflexivity|]. cbn.
  destruct (Nat.eqb (p_signal q) c) eqn:E; cbn; [exact IH|].
  rewrite E. exact IH.
Qed.

(** The event that ends operation [c] removes everything suspended under
    the signal [c]. *)
Lemma ended_inflight (e : Event) (s : App) (out : Outcome) (c : nat) :
  outcome_of e s = Some out ->
  signal_of e = Some c ->
  inflight (step e s)
  = List.filter (fun q => negb (Nat.eqb (p_signal q) c)) (inflight s).
Proof.
  destruct e; try discriminate; cbn [step outcome_of signal_of];
    intros Hout [= ->]; revert Hout.
  - operation_cases_eq;
      first [ discriminate
            | intros _;
              match goal with
              | H : find_pending _ _ _ = Some _ |- _ =>
                  apply find_pending_signal in H as [<- _]
              end; reflexivity ].
  - operation_cases_eq;
      first [ discriminate
            | intros _;
              match goal with
              | H : find_pending _ _ _ = Some _ |- _ =>
                  apply find_pending_signal in H as [<- _]
              end; reflexivity ].
Qed.

End Ended.

(** X22. An operation ends once: after the event that ended the operation
    under signal [c], whether with success or not, a later completion of
    readers or of an exchange under the same signal ends nothing and
    leaves the whole state as it is. *)
Theorem operation_ends_once (e e' : Event) (s : App) (out : Outcome) (c : nat) :
  outcome_of e s = Some out ->
  signal_of e = Some c ->
  signal_of e' = Some c ->
  step e' (step e s) = step e s /\ outcome_of e' (step e s) = None.
Proof.
  intros Hout He He'.
  pose proof (ended_inflight e s out c Hout He) as Hin.
  destruct e'; try discriminate; cbn in He'; injection He' as ->;
    cbn [step outcome_of]; unfold files_read, settled, find_pending;
    rewrite Hin, find_removed; split; reflexivity.
Qed.

Lemma operation_ends_once_witness :
  let s := run (pick_and_hide ++ [EvFilesRead 0 true]) first_visit in
  let e := EvSettled 0 positive_answer in
  step e (step e s) = step e s.
Proof.
  intros s e.
  assert (H : outcome_of e s = Some Succeeded) by (vm_compute; reflexivity).
  exact (proj1 (operation_ends_once e e s Succeeded 0 H eq_refl eq_refl)).
Defined.

(** X23. A cancelled operation whose files are still being read never
    reaches the network: when its readers complete under an aborted
    signal, no request is handed to [fetch]. *)
Theorem aborted_read_sends_nothing (c : nat) (loaded : bool) (s : App) :
  c ∈ aborted s ->
  requests (step (EvFilesRead c loaded) s) = requests s.
Proof.
  intros Hc. cbn [step].
  operation_cases_eq; try reflexivity;
    match goal with
    | H : find_pending _ _ _ = Some _ |- _ =>
        apply find_pending_signal in H as [<- _]
    end; contradiction.
Qed.

Lemma aborted_read_sends_nothing_witness :
  let s := run (pick_and_hide ++ [EvCancelOperation]) first_visit in
  requests (step (EvFilesRead 0 true) s) = requests s.
Proof.
  intros s. apply aborted_read_sends_nothing.
  apply elem_of_elements. vm_compute. repeat constructor.
Defined.

(** X24. After every operation that ends with success, the request sent
    last is the one to save the stats, and it carries the stats and the
    achievements as the page has them then. *)
Theorem success_posts_the_ledger (e : Event) (s : App) :
  succeeded (outcome_of e s) = true ->
  exists rest,
    requests (step e s)
    = PostSaveStats (stats (step e s)) (achievements (step e s)) :: rest.
Proof.
  destruct e; try discriminate; cbn [step outcome_of].
  - operation_cases_exact; try discriminate.
  - operation_cases_exact; try discriminate; intros _;
      (destruct (newAchievements _); rewrite ?app_nil_r; eexists; reflexivity).
Qed.

Lemma success_posts_the_ledger_witness :
  let s := run (pick_and_hide ++ [EvFilesRead 0 true]) first_visit in
  exists rest,
    requests (step (EvSettled 0 positive_answer) s)
    = PostSaveStats (stats (step (EvSettled 0 positive_answer) s))
        (achievements (step (EvSettled 0 positive_answer) s)) :: rest.
Proof.
  intros s. apply success_posts_the_ledger. vm_compute. reflexivity.
Defined.

(** ** Operations under way at the same time *)

Section Burst.

Variables (stego : File) (stegoB64 : jsval) (status : N) (result : ServiceResult).
Hypothesis Hread : fileToBase64Chunked stego = inr stegoB64.
Hypothesis Hok : res_success result = true.
Hypothesis Hdecodes :
  forall mimeType, exists blob, base64ToBlob (res_data result) mimeType = inr blob.

Lemma mark_others (c : nat) (l : list Pending) :
  Forall (fun q => p_signal q <> c) l ->
  map (fun q => if Nat.eqb (p_signal q) c
                then mkPending c (p_args q) (p_password q) Fetching
                else q) l = l.
Proof.
  induction 1 as [|q l Hq _ IH]; [reflexivity|]. cbn. rewrite IH.
  apply Nat.eqb_neq in Hq. now rewrite Hq.
Qed.

Lemma filter_others (c : nat) (l : list Pending) :
  Forall (fun q => p_signal q <> c) l ->
  List.filter (fun q => negb (Nat.eqb (p_signal q) c)) l = l.
Proof.
  induction 1 as [|q l Hq _ IH]; [reflexivity|]. cbn. rewrite IH.
  apply Nat.eqb_neq in Hq. now rewrite Hq.
Qed.

Lemma earlier_signals (k : nat) :
  Forall (fun q => p_signal q <> k) (map (reading stego) (rev (seq 0 k))).
Proof.
  apply Forall_map, Forall_rev, Forall_forall. intros c Hc. cbn.
  apply list_elem_of_In, in_seq in Hc. lia.
Qed.

Lemma rev_seq_S (k : nat) : rev (seq 0 (S k)) = k :: rev (seq 0 k).
Proof. rewrite seq_S, rev_app_distr. reflexivity. Qed.

Lemma started_step (k : nat) (s : App) :
  started stego k s -> started stego (S k) (step (EvStartExtracting "pw") s).
Proof.
  intros (Hx & Hnav & Hn & Hab & Hk & Hin).
  cbn [step]. unfold startExtracting, quota_reached, isUserLoggedIn.
  rewrite Hnav, Hn, Hx. unfold started. rewrite rev_seq_S. cbn.
  rewrite Hk, Hin. repeat split; assumption.
Qed.

Lemma draining_step (k : nat) (j : Z) (s : App) :
  draining stego (S k) j s ->
  draining stego k (j + 1)
    (step (EvSettled k (HttpResponse true status (Some result)))
       (step (EvFilesRead k true) s)).
Proof.
  intros (Hnav & Hab & Hn & Hin). rewrite rev_seq_S in Hin.
  cbn [step].
  assert (H1 : fst (files_read k true s)
               = set_inflight
                   (mkPending k (ExtractArgs stego) "pw" Fetching
                    :: map (reading stego) (rev (seq 0 k)))
                   (set_requests (PostExtract k stegoB64 "pw" :: requests s) s)).
  { unfold files_read, find_pending. rewrite Hin. cbn. rewrite Nat.eqb_refl. cbn.
    unfold send_request, fetch, read_file, bind, lift. cbn. rewrite Hread. cbn.
    destruct (decide (k ∈ aborted s)) as [Hk|_].
    { rewrite Hab in Hk. now apply not_elem_of_empty in Hk. }
    cbn. rewrite Hin. cbn. rewrite Nat.eqb_refl.
    rewrite mark_others by apply earlier_signals. reflexivity. }
  rewrite H1. clear H1.
  unfold settled, find_pending. cbn. rewrite Nat.eqb_refl. cbn.
  rewrite bool_decide_eq_false_2
    by (rewrite Hab; apply not_elem_of_empty).
  unfold read_response. cbn. rewrite Hok. cbn.
  unfold finish, on_success, showResults, bind, lift, get, act, ret. cbn.
  match goal with
  | |- context [base64ToBlob ?a ?b] => destruct (Hdecodes b) as [blob ->]
  end.
  cbn. ledger_shape. cbn. rewrite Hnav. cbn.
  unfold draining. cbn. rewrite Nat.eqb_refl. cbn.
  rewrite filter_others by apply earlier_signals.
  repeat split; try assumption; lia.
Qed.

Lemma run_app (es1 es2 : list Event) (s : App) :
  run (es1 ++ es2) s = run es2 (run es1 s).
Proof. apply fold_left_app. Qed.

Lemma started_run (n k : nat) (s : App) :
  started stego k s ->
  started stego (n + k) (run (repeat (EvStartExtracting "pw") n) s).
Proof.
  revert k s. induction n as [|n IH]; intros k s Hs; [exact Hs|].
  cbn [repeat run fold_left]. replace (S n + k)%nat with (n + S k)%nat by lia.
  apply IH, started_step, Hs.
Qed.

Lemma draining_run (k : nat) (j : Z) (s : App) :
  draining stego k j s ->
  draining stego 0 (j + Z.of_nat k)
    (run (flat_map
            (fun c => [EvFilesRead c true;
                       EvSettled c (HttpResponse true status (Some result))])
            (rev (seq 0 k))) s).
Proof.
  revert j s. induction k as [|k IH]; intros j s Hs.
  - cbn. now rewrite Z.add_0_r.
  - rewrite rev_seq_S. cbn [flat_map app run fold_left].
    replace (j + Z.of_nat (S k))%Z with (j + 1 + Z.of_nat k)%Z by lia.
    apply IH, draining_step, Hs.
Qed.

End Burst.

(** X25. The gate does not bound what an anonymous visitor completes: it
    compares the counter when an operation starts, and operations started
    while the counter was below the limit all count when they end. For
    every [n], a visitor who is never logged in starts [n] extractions
    one after the other, the service answers each positively, and the
    counter reaches [n], whatever the limit of 2. *)
Theorem quota_does_not_bound_completions (n : nat) :
  forallb local_event (burst n) = true
  /\ isUserLoggedIn (run (burst n) first_visit) = false
  /\ anonOperationCount (run (burst n) first_visit) = Z.of_nat n.
Proof.
  split.
  { unfold burst. cbn [forallb local_event andb].
    rewrite forallb_app. apply andb_true_iff. split.
    - apply forallb_forall. intros e He. apply repeat_spec in He. now subst.
    - apply forallb_forall. intros e He. apply in_flat_map in He as (c & _ & Hc).
      destruct Hc as [<-|[<-|[]]]; reflexivity. }
  unfold burst. change (run (?e :: ?es) ?s) with (run es (step e s)).
  rewrite run_app.
  set (s0 := step (EvProcessFile carrier_png SlotExtract) first_visit).
  assert (H0 : started carrier_png 0 s0).
  { unfold started. repeat split; vm_compute; reflexivity. }
  apply (started_run carrier_png n 0) in H0.
  destruct H0 as (_ & Hnav & Hn & Hab & _ & Hin).
  rewrite Nat.add_0_r in Hin.
  assert (Hd : draining carrier_png n 0
                 (run (repeat (EvStartExtracting "pw") n) s0))
    by (unfold draining; auto).
  rewrite <- (Z.add_0_l (Z.of_nat n)).
  assert (Hread : exists v, fileToBase64Chunked carrier_png = inr v)
    by (vm_compute; eexists; reflexivity).
  destruct Hread as [v Hv].
  eapply (draining_run carrier_png v 200
            (mkResult true "" (JStr (js "SGVs")) [] []) Hv eq_refl) in Hd.
  - destruct Hd as (Hnav' & _ & Hn' & _). split; [exact Hnav' | exact Hn'].
  - intros mimeType. eexists. cbv. reflexivity.
Qed.

(** ** The slides *)

Section Slides.

(** The state [goToSlide] reaches on a consistent presentation, for a
    slide of the range. *)
Lemma goToSlide_state (n : Z) (p : Presentation) :
  presentation_wf p ->
  (1 <= n <= totalSlides p)%Z ->
  let q :=
    updateSlideCounter
      (updateNavigation
         (set_active (n - 1) true
            (mkPresentation n (totalSlides p)
               (<[Z.to_nat (currentSlide p - 1) := false]> (slides p))
               (prevBtn_disabled p) (nextBtn_disabled p)
               (shown_counter p) (document p)))) in
  goToSlide n p = (q, animateSlideContent q).
Proof.
  intros (Hc & Hlen & Hsl & Hprev & Hnext & Hcnt) Hn. cbn zeta.
  unfold goToSlide.
  destruct ((n <? 1) || (totalSlides p <? n))%Z eqn:E.
  { apply orb_true_iff in E as [E|E]; apply Z.ltb_lt in E; lia. }
  unfold slide_at at 1.
  destruct (Z.ltb_spec (currentSlide p - 1) 0); [lia|].
  destruct (slides p !! Z.to_nat (currentSlide p - 1)) eqn:E2.
  2: { apply lookup_ge_None in E2. lia. }
  cbn. unfold slide_at. cbn.
  destruct (Z.ltb_spec (n - 1) 0); [lia|].
  destruct (<[Z.to_nat (currentSlide p - 1) := false]> (slides p)
              !! Z.to_nat (n - 1)) eqn:E4.
  2: { apply lookup_ge_None in E4. rewrite length_insert in E4. lia. }
  reflexivity.
Qed.

(** On a consistent presentation [goToSlide] reaches every slide of the
    range and leaves a consistent presentation, whatever
    [animateSlideContent] throws at the end. *)
Lemma goToSlide_wf (n : Z) (p : Presentation) :
  presentation_wf p ->
  (1 <= n <= totalSlides p)%Z ->
  presentation_wf (fst (goToSlide n p))
  /\ currentSlide (fst (goToSlide n p)) = n
  /\ totalSlides (fst (goToSlide n p)) = totalSlides p
  /\ document (fst (goToSlide n p)) = document p.
Proof.
  intros Hp Hn. rewrite (goToSlide_state n p Hp Hn).
  destruct Hp as (Hc & Hlen & Hsl & Hprev & Hnext & Hcnt).
  cbn. split; [|repeat split; reflexivity].
  unfold presentation_wf. cbn. rewrite !length_insert.
  repeat split; try lia.
  intros i Hi. rewrite !list_lookup_insert, !length_insert.
  specialize (Hsl i Hi).
  destruct (decide (Z.to_nat (n - 1) = i /\ (Z.to_nat (n - 1) < length (slides p))%nat))
    as [[Hi1 _]|Hi1].
  { f_equal. symmetry. apply bool_decide_eq_true. lia. }
  rewrite Hsl.
  destruct (decide (Z.to_nat (currentSlide p - 1) = i
                    /\ (Z.to_nat (currentSlide p - 1) < length (slides p))%nat))
    as [[Hi2 _]|Hi2].
  - f_equal. symmetry. apply bool_decide_eq_false. lia.
  - f_equal. rewrite !bool_decide_eq_false_2; [reflexivity | lia | lia].
Qed.

(** In a complete document it throws nothing. *)
Lemma goToSlide_quiet (n : Z) (p : Presentation) :
  presentation_wf p ->
  document_complete p ->
  (1 <= n <= totalSlides p)%Z ->
  snd (goToSlide n p) = None.
Proof.
  intros Hp [Hdoc _] Hn. rewrite (goToSlide_state n p Hp Hn).
  destruct Hp as (Hc & Hlen & _).
  unfold animateSlideContent. cbn. rewrite Hdoc by lia. reflexivity.
Qed.

Lemma keydown_wf (key : string) (p : Presentation) :
  presentation_wf p ->
  presentation_wf (fst (keydown key p))
  /\ document (fst (keydown key p)) = document p
  /\ length (slides (fst (keydown key p))) = length (slides p).
Proof.
  intros Hp. pose proof Hp as (Hc & Hlen & _).
  assert (Hgo : forall n, (1 <= n <= totalSlides p)%Z ->
                presentation_wf (fst (goToSlide n p))
                /\ document (fst (goToSlide n p)) = document p
                /\ length (slides (fst (goToSlide n p))) = length (slides p)).
  { intros n Hn. destruct (goToSlide_wf n p Hp Hn) as (H1 & _ & H3 & H4).
    split; [exact H1|]. split; [exact H4|].
    destruct H1 as (_ & Hlen' & _). lia. }
  unfold keydown, nextSlide, previousSlide.
  repeat match goal with
         | |- context [if ?b then _ else _] => destruct b eqn:?
         end;
    try (split; [assumption | split; reflexivity]);
    apply Hgo;
    repeat match goal with
           | H : (_ <? _)%Z = true |- _ => apply Z.ltb_lt in H
           end; lia.
Qed.

Lemma keydown_quiet (key : string) (p : Presentation) :
  presentation_wf p -> document_complete p -> snd (keydown key p) = None.
Proof.
  intros Hp Hdoc. pose proof Hp as (Hc & _). pose proof Hdoc as (_ & Hfull).
  unfold keydown, nextSlide, previousSlide, toggleFullscreen.
  repeat match goal with
         | |- context [if ?b then _ else _] => destruct b eqn:?
         end;
    try reflexivity;
    try (destruct Hfull; congruence);
    apply goToSlide_quiet; try assumption;
    repeat match goal with
           | H : (_ <? _)%Z = true |- _ => apply Z.ltb_lt in H
           end; lia.
Qed.

(** A consistent presentation is determined by its current slide, its
    number of slides and its document. *)
Lemma presentation_wf_unique (p q : Presentation) :
  presentation_wf p -> presentation_wf q ->
  currentSlide p = currentSlide q -> totalSlides p = totalSlides q ->
  document p = document q ->
  p = q.
Proof.
  intros (_ & Hlen & Hsl & Hprev & Hnext & Hcnt)
         (_ & Hlen' & Hsl' & Hprev' & Hnext' & Hcnt') Hc Ht Hd.
  destruct p as [c t sl pb nb cnt d], q as [c' t' sl' pb' nb' cnt' d']. cbn in *.
  subst c' t' d'. f_equal; try congruence.
  apply list_eq. intros i.
  destruct (decide (i < length sl)%nat) as [Hi|Hi].
  - rewrite Hsl, Hsl' by lia. reflexivity.
  - rewrite (proj2 (lookup_ge_None sl i)), (proj2 (lookup_ge_None sl' i)) by lia.
    reflexivity.
Qed.

Lemma nextSlide_current (p : Presentation) :
  presentation_wf p ->
  presentation_wf (fst (nextSlide p))
  /\ totalSlides (fst (nextSlide p)) = totalSlides p
  /\ document (fst (nextSlide p)) = document p
  /\ currentSlide (fst (nextSlide p))
     = Z.min (currentSlide p + 1) (totalSlides p).
Proof.
  intros Hp. pose proof Hp as (Hc & _). unfold nextSlide.
  destruct (Z.ltb_spec (currentSlide p) (totalSlides p)).
  - destruct (goToSlide_wf (currentSlide p + 1) p Hp) as (H1 & H2 & H3 & H4); [lia|].
    rewrite H2. split; [exact H1 | split; [exact H3 | split; [exact H4 | lia]]].
  - cbn. split; [exact Hp | split; [reflexivity | split; [reflexivity | lia]]].
Qed.

End Slides.

(** X26. On a page whose slides agree with the controller (as many
    slides as [totalSlides], the current one alone active), every
    sequence of keys leaves them in agreement: exactly the current slide
    is active, the two buttons are disabled exactly at the first and at
    the last slide, the counter shows the current slide. When moreover
    every slide holds a [.slide-content] and fullscreen can be asked for
    or is on, no key makes the listener throw. *)
Theorem keys_keep_the_slides_consistent (keys : list string) (p : Presentation) :
  presentation_wf p ->
  presentation_wf (press keys p)
  /\ (document_complete p ->
      forall key, snd (keydown key (press keys p)) = None).
Proof.
  intros Hp.
  assert (H : presentation_wf (press keys p)
              /\ document (press keys p) = document p
              /\ length (slides (press keys p)) = length (slides p)).
  { revert p Hp. induction keys as [|key keys IH]; intros p Hp;
      [split; [exact Hp | split; reflexivity]|].
    destruct (keydown_wf key p Hp) as (H1 & H2 & H3).
    change (press (key :: keys) p) with (press keys (fst (keydown key p))).
    destruct (IH _ H1) as (H4 & H5 & H6).
    split; [exact H4|]. split; congruence. }
  destruct H as (Hwf & Hdoc & Hlen). split; [exact Hwf|].
  intros Hcomplete key. apply keydown_quiet; [exact Hwf|].
  unfold document_complete in *. now rewrite Hdoc, Hlen.
Qed.

Lemma keys_keep_the_slides_consistent_witness :
  let p := new_PresentationController (true :: replicate 16 false) seventeen_slides in
  snd (keydown "F11" (press ["End"; "ArrowLeft"; " "]%string p)) = None
  /\ snd (keydown "Home" (press ["End"; "ArrowLeft"; " "]%string p)) = None.
Proof.
  intros p.
  assert (Hdoc : document_complete p).
  { split; [|right; reflexivity].
    intros i Hi. cbn in Hi. do 17 (destruct i as [|i]; [reflexivity|]). lia. }
  assert (Hwf : presentation_wf p).
  { unfold presentation_wf. cbn. repeat split; try lia.
    intros i Hi. do 17 (destruct i as [|i]; [reflexivity|]). lia. }
  pose proof (proj2 (keys_keep_the_slides_consistent
                       ["End"; "ArrowLeft"; " "]%string p Hwf) Hdoc) as H.
  split; apply H.
Defined.

(** X27. [nextSlide] called [n] times advances by [n] slides and stops at
    the last one. *)
Theorem next_times_saturates (n : nat) (p : Presentation) :
  presentation_wf p ->
  currentSlide (next_times n p)
  = Z.min (currentSlide p + Z.of_nat n) (totalSlides p).
Proof.
  revert p. induction n as [|n IH]; intros p Hp.
  - destruct Hp as (Hc & _). cbn. lia.
  - destruct (nextSlide_current p Hp) as (Hwf & Ht & _ & Hcur).
    cbn [next_times]. rewrite (IH _ Hwf), Ht, Hcur. lia.
Qed.

Lemma next_times_saturates_witness :
  currentSlide
    (next_times 40
       (new_PresentationController (true :: replicate 16 false) seventeen_slides))
  = 17%Z.
Proof.
  rewrite next_times_saturates; [reflexivity|].
  unfold presentation_wf. cbn. repeat split; try lia.
  intros i Hi. do 17 (destruct i as [|i]; [reflexivity|]). lia.
Defined.

(** X28. Before the last slide, [nextSlide] followed by [previousSlide]
    gives back the presentation as it was: slides, buttons and counter. *)
Theorem next_then_previous (p : Presentation) :
  presentation_wf p ->
  (currentSlide p < totalSlides p)%Z ->
  fst (previousSlide (fst (nextSlide p))) = p.
Proof.
  intros Hp Hlt. pose proof Hp as (Hc & _).
  destruct (nextSlide_current p Hp) as (Hwf & Ht & Hd & Hcur).
  set (q := fst (nextSlide p)) in *.
  unfold previousSlide.
  destruct (Z.ltb_spec 1 (currentSlide q)); [|lia].
  destruct (goToSlide_wf (currentSlide q - 1) q Hwf) as (H1 & H2 & H3 & H4); [lia|].
  apply presentation_wf_unique; try assumption; try lia. congruence.
Qed.

Lemma next_then_previous_witness :
  let p := new_PresentationController (true :: replicate 16 false) seventeen_slides in
  fst (previousSlide (fst (nextSlide p))) = p.
Proof.
  intros p. apply next_then_previous; [|reflexivity].
  unfold presentation_wf. cbn. repeat split; try lia.
  intros i Hi. do 17 (destruct i as [|i]; [reflexivity|]). lia.
Defined.

Section Stuck.

(** When the current slide is not among the slides of the page,
    [goToSlide] changes nothing. *)
Lemma goToSlide_stuck (n : Z) (p : Presentation) :
  slide_at (currentSlide p - 1) p = None -> fst (goToSlide n p) = p.
Proof.
  intros H. unfold goToSlide. rewrite H.
  destruct ((n <? 1) || (totalSlides p <? n))%Z; reflexivity.
Qed.

Lemma keydown_stuck (key : string) (p : Presentation) :
  slide_at (currentSlide p - 1) p = None -> fst (keydown key p) = p.
Proof.
  intros H. unfold keydown, nextSlide, previousSlide.
  repeat match goal with
         | |- context [if ?b then _ else _] => destruct b
         end;
    try reflexivity; now apply goToSlide_stuck.
Qed.

End Stuck.

(** X29. [totalSlides] is the constant 17 whatever the page holds. On a
    page with fewer slides (and at least one) the key [End] makes
    [goToSlide] throw after it has taken the class [active] from the
    first slide and moved [currentSlide] to 17: the counter still shows
    slide 1, and from then on no key changes anything. *)
Theorem fewer_slides_than_counted (slideElements : list bool) (doc : Document) :
  (0 < length slideElements < 17)%nat ->
  let p0 := new_PresentationController slideElements doc in
  let p := fst (keydown "End" p0) in
  snd (keydown "End" p0) = Some undefined_classList
  /\ currentSlide p = 17%Z
  /\ slides p = <[0%nat := false]> slideElements
  /\ shown_counter p = (1, 17)%Z
  /\ forall key, fst (keydown key p) = p.
Proof.
  intros Hlen p0 p.
  destruct slideElements as [|b rest]; [cbn in Hlen; lia|]. cbn in Hlen.
  assert (Hrest : rest !! 15%nat = None) by (apply lookup_ge_None; lia).
  assert (Hend : keydown "End" p0
                 = (mkPresentation 17 17 (false :: rest) true false (1, 17)%Z doc,
                    Some undefined_classList)).
  { unfold p0. cbv -[lookup insert]. cbn.
    match goal with
    | |- match ?x with Some _ => _ | None => _ end = _ =>
        change x with (rest !! 15%nat)
    end.
    rewrite Hrest. reflexivity. }
  unfold p. rewrite Hend. cbn [fst snd currentSlide shown_counter slides].
  do 4 (split; [reflexivity|]).
  intros key. apply keydown_stuck. exact Hrest.
Qed.

Lemma fewer_slides_than_counted_witness :
  currentSlide
    (fst (keydown "End"
            (new_PresentationController [true; false; false] seventeen_slides)))
  = 17%Z.
Proof.
  apply (fewer_slides_than_counted [true; false; false] seventeen_slides). cbn. lia.
Defined.

(** ** The theme *)

(** The theme chosen with [toggleTheme] is the theme the next load
    shows: on the storage that the toggle left, [loadTheme] sets the class
    of the root element and the icon as the toggle had set them. *)
Lemma theme_survives_reload (t fresh : Theme) (s : App) :
  stored_theme fresh = stored_theme (fst (toggleTheme t s)) ->
  loadTheme fresh = fst (toggleTheme t s).
Proof.
  destruct fresh as [d i st]. unfold loadTheme, toggleTheme. cbn. intros ->.
  destruct (html_dark t); reflexivity.
Qed.

(** ** Cancellation in the two variants *)

(** X30. The two variants of the class differ on cancellation. In
    [app.js], where [hideData] and [extractData] have no [catch], an
    exchange that settles under an aborted signal ends the operation as
    cancelled: no toast, no change of the stats. In [pres.js] the same
    exchange ends it as failed, with an error toast. *)
Theorem app_js_cancellation_is_silent
  (c : nat) (o : FetchOutcome) (s : App) (p : Pending) :
  find_pending c Fetching s = Some p ->
  c ∈ aborted s ->
  snd (settled_app c o s) = Some Cancelled
  /\ toasts (fst (settled_app c o s)) = toasts s
  /\ stats (fst (settled_app c o s)) = stats s
  /\ exists error,
       snd (settled c o s) = Some (Failed error)
       /\ toasts (fst (settled c o s))
          = mkToast "Ошибка"
              (failure_prefix (kind_of (p_args p)) +:+ err_message error) "error"
            :: toasts s.
Proof.
  intros Hp Hc. unfold settled_app, settled. rewrite Hp.
  rewrite bool_decide_eq_true_2 by assumption.
  unfold read_response, finish_app, finish, on_error, bind, lift. cbn.
  repeat split. eexists. split; [reflexivity|].
  destruct (kind_of (p_args p)); reflexivity.
Qed.

Lemma app_js_cancellation_is_silent_witness :
  let s := run (pick_and_hide ++ [EvFilesRead 0 true; EvCancelOperation]) first_visit in
  snd (settled_app 0 positive_answer s) = Some Cancelled.
Proof.
  intros s.
  assert (Hp : find_pending 0 Fetching s
               = Some (mkPending 0 (HideArgs carrier_png secret_txt) "pw" Fetching))
    by (vm_compute; reflexivity).
  assert (Hc : 0%nat ∈ aborted s).
  { apply elem_of_elements. vm_compute. repeat constructor. }
  exact (proj1 (app_js_cancellation_is_silent 0 positive_answer s _ Hp Hc)).
Defined.
